(** * sunset.ai: chat visibility hook and memory-graph dialog

    A shallow embedding of two client-side units of the repository:

    - the hook [useChatVisibility]: the visibility of a chat is read from
      the SWR cache and written back optimistically;
    - [MemoryGraphDialog] (src/components/memory-graph-dialog.tsx): the paged
      fetch client [fetchDocuments], the incremental loader
      ([loadInitialDocuments], [loadMoreDocuments]) and the selection source
      ([loadWorkspaceAndChats]).

    Definitions come first (one module per source unit), the facts proved
    about them follow in [VisibilityFacts] and [DialogFacts]. *)

From Stdlib Require Import ZArith String Ascii List Bool Lia.
From Stdlib Require Import Sorting.Sorted Sorting.Permutation.
From stdpp Require Import base option strings gmap.
Import ListNotations.

(** ** JavaScript truthiness of [string | null | undefined] *)

(** [null], [undefined] and the empty string are falsy. *)
Definition truthy (v : option string) : bool :=
  match v with
  | Some s => negb (String.eqb s "")
  | None => false
  end.

(** [a || b] on such values: [a] when it is truthy, [b] otherwise. *)
Definition js_or (a b : option string) : option string :=
  if truthy a then a else b.

(** ** The hook useChatVisibility *)

Module ChatVisibility.

(** Modelled from the spec: [VisibilityType] is declared in
    components/visibility-selector, which is not part of the sources at
    hand; the spec gives it as the enumeration private, public. *)
Inductive VisibilityType := private | public.

(** Modelled from the spec: the entries of [ChatHistory] (declared in
    components/sidebar-history) with the three fields the hook reads. *)
Record Chat := mkChat {
  id : string;
  visibility : VisibilityType;
  workspaceId : option string
}.

Record ChatHistory := mkHistory { chats : list Chat }.

(** The SWR cache, split by key family: the entry under ['/api/history']
    and the entries under [`${chatId}-visibility`], indexed by [chatId]. *)
Record Cache := mkCache {
  historyData : option ChatHistory;
  visibilityData : gmap string VisibilityType
}.

(** What the hook reads from the browser: whether [window] is defined and
    [localStorage.getItem('sunsetLastWorkspace')]. *)
Record Browser := mkBrowser {
  window : bool;
  sunsetLastWorkspace : option string
}.

(** Calls that leave the hook, in the order they are made. *)
Inductive Effect :=
| SetLocalVisibility (chatId : string) (v : VisibilityType)
| Mutate (workspace : string)
    (* mutate(unstable_serialize(getChatHistoryPaginationKey(workspace))) *)
| UpdateChatVisibility (chatId : string) (v : VisibilityType).
    (* the server action; the promise it returns is dropped *)

Section Hook.
(** The arguments of [useChatVisibility]. *)
Variables (chatId : string) (initialVisibilityType : VisibilityType)
          (workspaceIdProp : option string).

(** [cache.get('/api/history')?.data] *)
Definition history (cache : Cache) : option ChatHistory := historyData cache.

(** [useSWR(`${chatId}-visibility`, null, { fallbackData })]: the cached
    value, or the fallback while nothing has been stored. *)
Definition localVisibility (cache : Cache) : VisibilityType :=
  default initialVisibilityType (visibilityData cache !! chatId).

Definition findChat (h : ChatHistory) : option Chat :=
  List.find (fun chat => String.eqb (id chat) chatId) (chats h).

Definition visibilityType (cache : Cache) : VisibilityType :=
  match history cache with
  | None => localVisibility cache
  | Some h =>
      match findChat h with
      | None => private
      | Some chat => visibility chat
      end
  end.

(** [history?.chats.find(...)?.workspaceId] *)
Definition recordWorkspaceId (cache : Cache) : option string :=
  h ← history cache; chat ← findChat h; workspaceId chat.

(** [typeof window !== 'undefined' ? localStorage.getItem(...) : null] *)
Definition storedWorkspaceId (env : Browser) : option string :=
  if window env then sunsetLastWorkspace env else None.

Definition chatWorkspaceId (cache : Cache) (env : Browser) : option string :=
  js_or (js_or workspaceIdProp (recordWorkspaceId cache)) (storedWorkspaceId env).

Definition setLocalVisibility (v : VisibilityType) (cache : Cache) : Cache :=
  {| historyData := historyData cache;
     visibilityData := <[chatId := v]> (visibilityData cache) |}.

Definition setVisibilityType (updatedVisibilityType : VisibilityType)
    (cache : Cache) (env : Browser) : Cache * list Effect :=
  let cache' := setLocalVisibility updatedVisibilityType cache in
  let resolved := chatWorkspaceId cache env in
  (cache',
   [SetLocalVisibility chatId updatedVisibilityType]
     ++ (match resolved with
         | Some ws => if truthy resolved then [Mutate ws] else []
         | None => []
         end)
     ++ [UpdateChatVisibility chatId updatedVisibilityType]).
End Hook.

(** The spec's reading of "checking, in order": the first candidate that
    is usable (neither absent nor empty). *)
Definition firstResolved (candidates : list (option string)) : option string :=
  mjoin (List.find truthy candidates).

(** Modelled from the spec: [updateChatVisibility] is a server action of
    app/(chat)/actions, which is not part of the sources at hand; the spec
    gives it as a persistence request that resolves after the call. Its
    promise stays pending, is fulfilled or is rejected. *)
Inductive Settlement := StaysPending | Fulfilled | Rejected.

(** How a function stands after a statement that made a call returning a
    promise: it goes on, it is suspended until the promise settles, or the
    rejection was thrown into it. *)
Inductive Control := GoesOn | Suspended | Threw.

(** [f(...);], an expression statement: the promise is dropped and the
    function goes on, whatever becomes of the promise. *)
Definition expressionStatement (promise : Settlement) : Control := GoesOn.

(** [await f(...);], which the hook does not use: the function goes on
    only once the promise is fulfilled. *)
Definition awaitStatement (promise : Settlement) : Control :=
  match promise with
  | StaysPending => Suspended
  | Fulfilled => GoesOn
  | Rejected => Threw
  end.

(** A call of [setVisibilityType] when the promise of the server action
    settles as [persistence] says: the writes and calls of the body, and
    how its last statement, the call of [updateChatVisibility], leaves the
    function. Nothing follows that statement, so [GoesOn] is the return to
    the caller. *)
Definition setVisibilityTypeCall (chatId : string) (workspaceIdProp : option string)
    (updatedVisibilityType : VisibilityType) (cache : Cache) (env : Browser)
    (persistence : Settlement) : Cache * list Effect * Control :=
  (setVisibilityType chatId workspaceIdProp updatedVisibilityType cache env,
   expressionStatement persistence).

End ChatVisibility.

(** ** src/components/memory-graph-dialog.tsx *)

Module MemoryGraph.

Local Open Scope Z_scope.

(** *** Data *)

(** Modelled from the spec: [DocumentWithMemories] is declared in
    lib/types/supermemory, which is not part of the sources at hand; the
    dialog treats it as an opaque payload with an identity. *)
Record DocumentWithMemories := mkDocument { docId : string }.

(** What [new Date(x)] makes of a [createdAt] value. *)
Inductive DateValue :=
| ValidDate (ms : Z)
| InvalidDate.

(** [new Date(x).getTime()]; [None] stands for [NaN]. *)
Definition getTime (d : DateValue) : option Z :=
  match d with
  | ValidDate ms => Some ms
  | InvalidDate => None
  end.

(** [interface Chat]; [title] is optional because the code guards it
    ([c.title || '']). *)
Record Chat := mkChat {
  id : string;
  title : option string;
  createdAt : DateValue
}.

Module Pagination.
Record t := mk {
  currentPage : Z;
  totalPages : Z;
  totalItems : Z;
  limit : Z
}.
End Pagination.

(** The body [response.json()] yields for /api/documents: [null], or an
    object whose [documents] and [pagination] members may be missing. *)
Inductive DocumentsJson :=
| JsonNull
| JsonObject (documents : option (list DocumentWithMemories))
             (pagination : option Pagination.t).

(** The body of /api/history: [HistoryChats l] when [chatsData?.chats] is
    an array, [HistoryOther] for every other body. *)
Inductive HistoryJson :=
| HistoryOther
| HistoryChats (chats : list Chat).

Inductive JsError :=
| NetworkError      (* fetch() rejects *)
| SyntaxError       (* response.json() rejects *)
| TypeError.        (* a member of null or undefined is read *)

Inductive Request :=
| PostDocuments (page limit : Z) (sort order chatId : string)
| GetHistory (workspaceId : string) (limit : Z).

(** A [Response]: [text] and [json] are the outcomes of
    [response.text()] and [response.json()], [None] when the promise
    rejects. *)
Record HttpResponse (A : Type) := mkResponse {
  ok : bool;
  status : Z;
  text : option string;
  json : option A
}.
Arguments mkResponse {A}.
Arguments ok {A}.
Arguments status {A}.
Arguments text {A}.
Arguments json {A}.

(** What one [fetch] call comes back with: a rejection (transport
    failure) or a response. *)
Inductive HttpReply (A : Type) :=
| Rejects
| Responds (response : HttpResponse A).
Arguments Rejects {A}.
Arguments Responds {A}.

Record Network := mkNetwork {
  documentsApi : Request -> HttpReply DocumentsJson;
  historyApi : Request -> HttpReply HistoryJson
}.

(** The [useState] cells of the component. *)
Record State := mkState {
  documents : list DocumentWithMemories;
  isLoading : bool;
  isLoadingMore : bool;
  error : option JsError;
  currentPage : Z;
  hasMore : bool;
  totalLoaded : Z;
  chats : list Chat;
  selectedChatId : option string
}.

Definition initialState : State :=
  {| documents := []; isLoading := false; isLoadingMore := false;
     error := None; currentPage := 1; hasMore := true; totalLoaded := 0;
     chats := []; selectedChatId := None |}.

(** What an observer sees of one run: requests on the wire, console
    output, and the state the component is left in at each [await]. *)
Inductive Event :=
| Fetch (r : Request)
| ConsoleWarn (msg : string)
| ConsoleError (msg : string)
| Suspended (s : State).

(** *** Control: state, trace and exceptions *)

Inductive Completion (A : Type) :=
| Normal (a : A)
| Throw (e : JsError).
Arguments Normal {A}.
Arguments Throw {A}.

Definition M (A : Type) : Type := State -> State * list Event * Completion A.

Definition ret {A} (a : A) : M A := fun s => (s, [], Normal a).

Definition throw {A} (e : JsError) : M A := fun s => (s, [], Throw e).

Definition bind {A B} (m : M A) (k : A -> M B) : M B :=
  fun s =>
    match m s with
    | (s1, t1, Normal a) =>
        let '(s2, t2, c) := k a s1 in (s2, t1 ++ t2, c)
    | (s1, t1, Throw e) => (s1, t1, Throw e)
    end.

(** With these instances [x ← m; k] and [m ;; k] sequence two steps. *)
#[global] Instance M_ret : MRet M := @ret.
#[global] Instance M_bind : MBind M := fun A B k m => bind m k.

(** [try { body } catch (err) { handler err }] *)
Definition try_catch {A} (body : M A) (handler : JsError -> M A) : M A :=
  fun s =>
    match body s with
    | (s1, t1, Normal a) => (s1, t1, Normal a)
    | (s1, t1, Throw e) =>
        let '(s2, t2, c) := handler e s1 in (s2, t1 ++ t2, c)
    end.

(** [try { body } finally { final }] *)
Definition try_finally {A} (body : M A) (final : M unit) : M A :=
  fun s =>
    let '(s1, t1, c) := body s in
    match final s1 with
    | (s2, t2, Normal _) => (s2, t1 ++ t2, c)
    | (s2, t2, Throw e) => (s2, t1 ++ t2, Throw e)
    end.

Definition gets {A} (f : State -> A) : M A := fun s => (s, [], Normal (f s)).

Definition emit (e : Event) : M unit := fun s => (s, [e], Normal tt).

(** [await p]: [p] is started, the function is suspended with the state
    as it then is, and resumes with the value (or the rejection) of [p].
    When [p] is a call of an async function, the trace lists the run of the
    callee before the suspension of the caller. *)
Definition await {A} (p : M A) : M A :=
  fun s => let '(s1, t1, c) := p s in (s1, t1 ++ [Suspended s1], c).

Definition state_of {A} (r : State * list Event * Completion A) : State := fst (fst r).
Definition trace_of {A} (r : State * list Event * Completion A) : list Event := snd (fst r).
Definition completion_of {A} (r : State * list Event * Completion A) : Completion A := snd r.

(** *** State setters *)

Definition setDocuments (f : list DocumentWithMemories -> list DocumentWithMemories) : M unit :=
  fun s =>
    ({| documents := f (documents s); isLoading := isLoading s;
        isLoadingMore := isLoadingMore s; error := error s;
        currentPage := currentPage s; hasMore := hasMore s;
        totalLoaded := totalLoaded s; chats := chats s;
        selectedChatId := selectedChatId s |}, [], Normal tt).

Definition setIsLoading (b : bool) : M unit :=
  fun s =>
    ({| documents := documents s; isLoading := b;
        isLoadingMore := isLoadingMore s; error := error s;
        currentPage := currentPage s; hasMore := hasMore s;
        totalLoaded := totalLoaded s; chats := chats s;
        selectedChatId := selectedChatId s |}, [], Normal tt).

Definition setIsLoadingMore (b : bool) : M unit :=
  fun s =>
    ({| documents := documents s; isLoading := isLoading s;
        isLoadingMore := b; error := error s;
        currentPage := currentPage s; hasMore := hasMore s;
        totalLoaded := totalLoaded s; chats := chats s;
        selectedChatId := selectedChatId s |}, [], Normal tt).

Definition setError (e : option JsError) : M unit :=
  fun s =>
    ({| documents := documents s; isLoading := isLoading s;
        isLoadingMore := isLoadingMore s; error := e;
        currentPage := currentPage s; hasMore := hasMore s;
        totalLoaded := totalLoaded s; chats := chats s;
        selectedChatId := selectedChatId s |}, [], Normal tt).

Definition setCurrentPage (p : Z) : M unit :=
  fun s =>
    ({| documents := documents s; isLoading := isLoading s;
        isLoadingMore := isLoadingMore s; error := error s;
        currentPage := p; hasMore := hasMore s;
        totalLoaded := totalLoaded s; chats := chats s;
        selectedChatId := selectedChatId s |}, [], Normal tt).

Definition setHasMore (b : bool) : M unit :=
  fun s =>
    ({| documents := documents s; isLoading := isLoading s;
        isLoadingMore := isLoadingMore s; error := error s;
        currentPage := currentPage s; hasMore := b;
        totalLoaded := totalLoaded s; chats := chats s;
        selectedChatId := selectedChatId s |}, [], Normal tt).

Definition setTotalLoaded (f : Z -> Z) : M unit :=
  fun s =>
    ({| documents := documents s; isLoading := isLoading s;
        isLoadingMore := isLoadingMore s; error := error s;
        currentPage := currentPage s; hasMore := hasMore s;
        totalLoaded := f (totalLoaded s); chats := chats s;
        selectedChatId := selectedChatId s |}, [], Normal tt).

Definition setChats (l : list Chat) : M unit :=
  fun s =>
    ({| documents := documents s; isLoading := isLoading s;
        isLoadingMore := isLoadingMore s; error := error s;
        currentPage := currentPage s; hasMore := hasMore s;
        totalLoaded := totalLoaded s; chats := l;
        selectedChatId := selectedChatId s |}, [], Normal tt).

Definition setSelectedChatId (c : option string) : M unit :=
  fun s =>
    ({| documents := documents s; isLoading := isLoading s;
        isLoadingMore := isLoadingMore s; error := error s;
        currentPage := currentPage s; hasMore := hasMore s;
        totalLoaded := totalLoaded s; chats := chats s;
        selectedChatId := c |}, [], Normal tt).

(** *** Strings

    Titles are strings of code units below U+0100; on that range
    [String.prototype.trim] strips U+0009..U+000D, U+0020 and U+00A0, and
    [toLowerCase] moves A..Z and U+00C0..U+00DE (but U+00D7) up by 32. *)

Definition isWhiteSpace (c : ascii) : bool :=
  let n := nat_of_ascii c in
  ((9 <=? n)%nat && (n <=? 13)%nat) || (n =? 32)%nat || (n =? 160)%nat.

Fixpoint trimStart (s : string) : string :=
  match s with
  | EmptyString => EmptyString
  | String c s' => if isWhiteSpace c then trimStart s' else s
  end.

Fixpoint trimEnd (s : string) : string :=
  match s with
  | EmptyString => EmptyString
  | String c s' =>
      match trimEnd s' with
      | EmptyString => if isWhiteSpace c then EmptyString else String c EmptyString
      | rest => String c rest
      end
  end.

Definition trim (s : string) : string := trimEnd (trimStart s).

Definition lowerChar (c : ascii) : ascii :=
  let n := nat_of_ascii c in
  if ((65 <=? n)%nat && (n <=? 90)%nat)
     || ((192 <=? n)%nat && (n <=? 222)%nat && negb (n =? 215)%nat)
  then ascii_of_nat (n + 32)
  else c.

Fixpoint toLowerCase (s : string) : string :=
  match s with
  | EmptyString => EmptyString
  | String c s' => String (lowerChar c) (toLowerCase s')
  end.

(** *** Array.prototype.sort

    The sort is the runtime's, and what it returns for a comparator that
    is not a consistent ordering differs from engine to engine. It is
    therefore taken as a parameter: any function with what every engine
    gives. The result is a permutation of the argument; and when the
    comparator is a consistent comparator for the values sorted (the five
    conditions of ECMAScript), no value stands before one that the
    comparator puts before it, and values that compare equal keep their
    order (the sort is stable). *)

Section Comparator.
Context {A : Type} (compareFn : A -> A -> Z).

Definition consistentOn (l : list A) : Prop :=
  forall a b c, In a l -> In b l -> In c l ->
    compareFn a a = 0
    /\ (compareFn a b = 0 -> compareFn b a = 0)
    /\ (compareFn a b = 0 -> compareFn b c = 0 -> compareFn a c = 0)
    /\ (compareFn a b < 0 -> compareFn b c < 0 -> compareFn a c < 0)
    /\ (0 < compareFn a b -> 0 < compareFn b c -> 0 < compareFn a c).

(** [y] compares equal to [x]. *)
Definition sameRank (x y : A) : bool := compareFn x y =? 0.

(** Stable insertion, one sort of this kind: an element moves behind a
    neighbour only when the comparator says so ([> 0]). It serves for the
    sample runs. *)
Fixpoint insertSorted (x : A) (l : list A) : list A :=
  match l with
  | [] => [x]
  | y :: l' => if 0 <? compareFn x y then y :: insertSorted x l' else x :: l
  end.

Definition insertionSort (l : list A) : list A := foldr insertSorted [] l.
End Comparator.

Class ArraySort := {
  array_sort : forall {A : Type}, (A -> A -> Z) -> list A -> list A;
  array_sort_permutes :
    forall {A : Type} (compareFn : A -> A -> Z) (l : list A),
      Permutation (array_sort compareFn l) l;
  array_sort_orders :
    forall {A : Type} (compareFn : A -> A -> Z) (l : list A),
      consistentOn compareFn l ->
      StronglySorted (fun x y => 0 <= compareFn y x) (array_sort compareFn l);
  array_sort_stable :
    forall {A : Type} (compareFn : A -> A -> Z) (l : list A) (x : A),
      consistentOn compareFn l -> In x l ->
      List.filter (sameRank compareFn x) (array_sort compareFn l)
      = List.filter (sameRank compareFn x) l
}.

(** *** Paged fetch client *)

Definition emptyResult (limit : Z) : DocumentsJson :=
  JsonObject (Some [])
    (Some {| Pagination.currentPage := 1; Pagination.totalPages := 0;
             Pagination.totalItems := 0; Pagination.limit := limit |}).

(** [fetch(...)]: the request goes out; the promise rejects or gives the
    response. *)
Definition fetch {A} (api : Request -> HttpReply A) (r : Request) : M (HttpResponse A) :=
  emit (Fetch r) ;;
  match api r with
  | Rejects => throw NetworkError
  | Responds response => mret response
  end.

(** [response.text().catch(() => '')] *)
Definition responseText {A} (response : HttpResponse A) : M string :=
  mret (default "" (text response)).

(** [response.json()] *)
Definition responseJson {A} (response : HttpResponse A) : M A :=
  match json response with
  | Some data => mret data
  | None => throw SyntaxError
  end.

Section Client.
Variable net : Network.

(** [fetchDocuments(page, limit)]; both callers pass [limit]. In the
    branch that sends the request [selectedChatId] is a non-empty
    string. *)
Definition fetchDocuments (page limit : Z) : M DocumentsJson :=
  selected ← gets selectedChatId;
  if negb (truthy selected) then
    emit (ConsoleWarn "[MemoryGraphDialog] No chat selected; skipping fetch.") ;;
    mret (emptyResult limit)
  else
    try_catch
      (response ← await (fetch (documentsApi net)
                           (PostDocuments page limit "createdAt" "desc"
                              (default "" selected)));
       if negb (ok response) then
         _ ← await (responseText response);
         emit (ConsoleError "[MemoryGraphDialog] Failed to fetch documents:") ;;
         mret (emptyResult limit)
       else
         data ← await (responseJson response);
         mret data)
      (fun err =>
         emit (ConsoleError "[MemoryGraphDialog] Error fetching documents:") ;;
         mret (emptyResult limit)).

(** *** Incremental loader *)

(** [data.documents]; reading a member of [null] throws. *)
Definition get_documents (data : DocumentsJson) : M (option (list DocumentWithMemories)) :=
  match data with
  | JsonNull => throw TypeError
  | JsonObject documents _ => mret documents
  end.

(** [data.pagination.currentPage < data.pagination.totalPages] *)
Definition descriptor_hasMore (data : DocumentsJson) : M bool :=
  match data with
  | JsonObject _ (Some p) => mret (Pagination.currentPage p <? Pagination.totalPages p)
  | _ => throw TypeError
  end.

Definition loadInitialDocuments : M unit :=
  setIsLoading true ;;
  setError None ;;
  try_finally
    (try_catch
       (data ← await (fetchDocuments 1 500);
        docs ← get_documents data;
        setDocuments (fun _ => default [] docs) ;;
        setTotalLoaded (fun _ => Z.of_nat (length (default [] docs))) ;;
        setCurrentPage 1 ;;
        more ← descriptor_hasMore data;
        setHasMore more)
       (fun err => setError (Some err)))
    (setIsLoading false).

(** [isLoadingMore], [hasMore] and [currentPage] are the values the
    callback closes over, read when it is called. *)
Definition loadMoreDocuments : M unit :=
  loadingMore ← gets isLoadingMore;
  more ← gets hasMore;
  page ← gets currentPage;
  if loadingMore || negb more then mret tt
  else
    setIsLoadingMore true ;;
    try_finally
      (try_catch
         (let nextPage := page + 1 in
          data ← await (fetchDocuments nextPage 100);
          docs ← get_documents data;
          match docs with
          | Some (d :: ds) =>
              setDocuments (fun prev => prev ++ d :: ds) ;;
              setTotalLoaded (fun prev => prev + Z.of_nat (length (d :: ds))) ;;
              setCurrentPage nextPage ;;
              more' ← descriptor_hasMore data;
              setHasMore more'
          | _ => setHasMore false
          end)
         (fun err => emit (ConsoleError "Error loading more documents:")))
      (setIsLoadingMore false).
End Client.

(** *** Selection source *)

(** [(c.title || '').trim().toLowerCase()] *)
Definition normalizedTitle (c : Chat) : string :=
  toLowerCase (trim (default "" (title c))).

(** The [filter] callback. *)
Definition notProfile (c : Chat) : bool :=
  negb (String.eqb (normalizedTitle c) "profile").

(** The [sort] callback. *)
Definition compareChats (a b : Chat) : Z :=
  match getTime (createdAt a), getTime (createdAt b) with
  | Some aTime, Some bTime => bTime - aTime
  | _, _ => 0
  end.

Section Selection.
Context {engine : ArraySort}.
Variables (net : Network) (workspaceIdProp defaultChatId : option string).

Definition filterAndSort (l : list Chat) : list Chat :=
  array_sort compareChats (List.filter notProfile l).

(** [defaultChatId && filtered.find((c) => c.id === defaultChatId)],
    followed by [?.id]: the id of the chat found, if any. *)
Definition preferredId (filtered : list Chat) : option string :=
  if truthy defaultChatId then
    id <$> List.find (fun c => String.eqb (id c) (default "" defaultChatId)) filtered
  else None.

Definition loadWorkspaceAndChats : M unit :=
  try_catch
    (let targetWorkspaceId := workspaceIdProp in
     if negb (truthy targetWorkspaceId) then mret tt
     else
       chatsRes ← await (fetch (historyApi net)
                           (GetHistory (default "" targetWorkspaceId) 100));
       if negb (ok chatsRes) then mret tt
       else
         chatsData ← await (responseJson chatsRes);
         let list := match chatsData with
                     | HistoryChats l => l
                     | HistoryOther => []
                     end in
         let filtered := filterAndSort list in
         setChats filtered ;;
         match filtered with
         | first :: _ =>
             setSelectedChatId (Some (default (id first) (preferredId filtered)))
         | [] => mret tt
         end)
    (fun error =>
       emit (ConsoleError "[MemoryGraphDialog] Failed to load workspace and chats:")).

(** The effect "when the dialog opens, if a defaultChatId is provided,
    set it". *)
Definition defaultChatEffect (open : bool) : M unit :=
  if negb open then mret tt
  else if truthy defaultChatId then setSelectedChatId defaultChatId
  else mret tt.

(** The effect "fetch workspace and chats when dialog opens". *)
Definition loadChatsEffect (open : bool) : M unit :=
  if open then loadWorkspaceAndChats else mret tt.

(** What the two effects above do to the state when the dialog opens.
    React runs them in source order, but the first one only starts
    [loadWorkspaceAndChats]: every write of that function comes after
    its [await] on the history request, hence after the write of
    [defaultChatEffect]. *)
Definition dialogOpens : M unit :=
  defaultChatEffect true ;;
  loadChatsEffect true.
End Selection.

End MemoryGraph.

(** * Reading runs of the dialog

    The vocabulary of the facts below: what a trace shows, when a request
    counts as failed or served, the order on chats, and the sample inputs
    the facts are tried on. *)

Module DialogTerms.
Import MemoryGraph.
Local Open Scope Z_scope.

(** ** What a run shows *)

(** The request [fetchDocuments] sends from state [s]. *)
Definition documentsRequest (s : State) (page limit : Z) : Request :=
  PostDocuments page limit "createdAt" "desc" (default ""%string (selectedChatId s)).

Definition requests_of (t : list Event) : list Request :=
  flat_map (fun e => match e with Fetch r => [r] | _ => [] end) t.

Definition snapshots_of (t : list Event) : list State :=
  flat_map (fun e => match e with Suspended s => [s] | _ => [] end) t.

(** The request went out and failed: the transport broke, or the status
    is not a success. *)
Definition fetchFails (net : Network) (s : State) (page limit : Z) : Prop :=
  truthy (selectedChatId s) = true
  /\ (documentsApi net (documentsRequest s page limit) = Rejects
      \/ exists r, documentsApi net (documentsRequest s page limit) = Responds r
                   /\ ok r = false).

(** The history request went out and came back with the array [l]. *)
Definition historyServed (net : Network) (workspaceIdProp : option string)
    (l : list Chat) : Prop :=
  truthy workspaceIdProp = true
  /\ exists r,
      historyApi net (GetHistory (default ""%string workspaceIdProp) 100) = Responds r
      /\ ok r = true
      /\ json r = Some (HistoryChats l).

(** [a] may stand before [b] in a list that is descending by creation
    time; an entry whose timestamp does not parse ranks equal to every
    other. *)
Definition notOlder (a b : Chat) : Prop :=
  match getTime (createdAt a), getTime (createdAt b) with
  | Some aTime, Some bTime => bTime <= aTime
  | _, _ => True
  end.

Definition unparsable (c : Chat) : bool :=
  match getTime (createdAt c) with
  | Some _ => false
  | None => true
  end.

Definition createdAtTime (t : Z) (c : Chat) : bool :=
  match getTime (createdAt c) with
  | Some t' => t' =? t
  | None => false
  end.

Definition allParse (l : list Chat) : Prop :=
  Forall (fun c => unparsable c = false) l.

(** ** Runs of the loader: any sequence of calls, each with the network
    it meets *)

Inductive Call :=
| LoadInitial (net : Network)
| LoadMore (net : Network).

Definition call (c : Call) (s : State) : State :=
  match c with
  | LoadInitial net => state_of (loadInitialDocuments net s)
  | LoadMore net => state_of (loadMoreDocuments net s)
  end.

Definition run (calls : list Call) (s : State) : State :=
  fold_left (fun s c => call c s) calls s.

(** ** Sample inputs *)

Definition doc1 : DocumentWithMemories := mkDocument "d1".
Definition doc2 : DocumentWithMemories := mkDocument "d2".

(** Two documents loaded and chat c selected. *)
Definition loaded : State :=
  {| documents := [doc1; doc2]; isLoading := false; isLoadingMore := false;
     error := None; currentPage := 1; hasMore := true; totalLoaded := 2;
     chats := []; selectedChatId := Some "c"%string |}.

Definition offline : Network :=
  mkNetwork (fun _ => Rejects) (fun _ => Rejects).

Definition serverError : Network :=
  mkNetwork (fun _ => Responds (mkResponse false 500 (Some "oops"%string) None))
            (fun _ => Rejects).

Definition serving (data : DocumentsJson) : Network :=
  mkNetwork (fun _ => Responds (mkResponse true 200 None (Some data)))
            (fun _ => Rejects).

Definition fiveHundred : list DocumentWithMemories := repeat doc1 500.

Definition firstPage : DocumentsJson :=
  JsonObject (Some fiveHundred)
    (Some {| Pagination.currentPage := 1; Pagination.totalPages := 2;
             Pagination.totalItems := 600; Pagination.limit := 500 |}).

(** The spec's example: an empty page with the descriptor (2, 5). *)
Definition emptyPage : DocumentsJson :=
  JsonObject (Some [])
    (Some {| Pagination.currentPage := 2; Pagination.totalPages := 5;
             Pagination.totalItems := 450; Pagination.limit := 100 |}).

(** A chat has just been selected, nothing is loaded yet. *)
Definition justSelected : State :=
  state_of (setSelectedChatId (Some "c"%string) initialState).

(** The spec's example: a reserved "Profile" chat and a later "General"
    chat. *)
Definition chatProfile : Chat := mkChat "a" (Some "Profile"%string) (ValidDate 1).
Definition chatGeneral : Chat := mkChat "b" (Some "General"%string) (ValidDate 2).

Definition historyServing (l : list Chat) : Network :=
  mkNetwork (fun _ => Rejects)
            (fun _ => Responds (mkResponse true 200 None (Some (HistoryChats l)))).

Definition chatOlder : Chat := mkChat "o" (Some "Notes"%string) (ValidDate 1).
Definition chatUndated : Chat := mkChat "u" (Some "Ideas"%string) InvalidDate.

End DialogTerms.

(** * The rest of the dialog: who owns the open flag *)

Module DialogShell.
Import MemoryGraph.

(** The two props that decide it: [open] ([None] when it is
    [undefined]) and whether [onOpenChange] was passed. *)
Record Props := mkProps {
  controlledOpen : option bool;
  controlledOnOpenChange : bool
}.

(** A call of the caller's [onOpenChange]. *)
Inductive Notice :=
| OnOpenChange (newOpen : bool).

(** [controlledOpen !== undefined ? controlledOpen : internalOpen] *)
Definition openOf (props : Props) (internalOpen : bool) : bool :=
  match controlledOpen props with
  | Some b => b
  | None => internalOpen
  end.

(** [controlledOnOpenChange || setInternalOpen], applied to [newOpen]:
    the new [internalOpen] and the calls made to the caller. *)
Definition onOpenChange (props : Props) (newOpen : bool) (internalOpen : bool)
    : bool * list Notice :=
  if controlledOnOpenChange props then (internalOpen, [OnOpenChange newOpen])
  else (newOpen, []).

(** [handleOpenChange(newOpen)]: the new [internalOpen], the calls made to
    the caller, and the run of the initial load it may start. *)
Definition handleOpenChange (net : Network) (props : Props) (newOpen : bool)
    (internalOpen : bool) (s : State)
    : bool * list Notice * (State * list Event * Completion unit) :=
  (onOpenChange props newOpen internalOpen,
   if newOpen && Nat.eqb (length (documents s)) 0 && truthy (selectedChatId s)
   then loadInitialDocuments net s
   else (s, [], Normal tt)).

(** Any number of [handleOpenChange] calls, each with the network it
    meets. *)
Fixpoint handleAll (props : Props) (calls : list (Network * bool))
    (internalOpen : bool) (s : State) : bool * State :=
  match calls with
  | [] => (internalOpen, s)
  | (net, newOpen) :: rest =>
      let r := handleOpenChange net props newOpen internalOpen s in
      handleAll props rest (fst (fst r)) (state_of (snd r))
  end.

End DialogShell.

(** * The login page: what follows a change of the action status *)

Module LoginPage.

(** [String.prototype.replace] with a string pattern: the first occurrence
    is replaced. (The replacement used here has no [$].) *)
Fixpoint dropChars (n : nat) (s : string) : string :=
  match n, s with
  | O, _ => s
  | S n', String _ s' => dropChars n' s'
  | S _, EmptyString => EmptyString
  end.

Fixpoint replaceFirst (pattern replacement s : string) : string :=
  if String.prefix pattern s then
    replacement +:+ dropChars (String.length pattern) s
  else
    match s with
    | EmptyString => EmptyString
    | String c s' => String c (replaceFirst pattern replacement s')
    end.

(** The body of the accept endpoint: [null], or an object of which the
    page reads three members. *)
Inductive AcceptJson :=
| AcceptNull
| AcceptObject (workspaceName workspaceId message : option string).

Record AcceptResponse := mkAccept {
  ok : bool;
  json : option AcceptJson       (* [None]: [json()] rejects *)
}.

Inductive AcceptReply :=
| AcceptRejects
| AcceptResponds (response : AcceptResponse).

(** What the page meets: whether [updateSession()] resolves, and what the
    accept endpoint answers to a POST on a URL. *)
Record World := mkWorld {
  sessionUpdates : bool;
  acceptApi : string -> AcceptReply
}.

Inductive Effect :=
| Toast (type description : string)
| SetIsSuccessful (b : bool)
| UpdateSession
| FetchPost (url : string)
| ConsoleError (msg : string)
| RouterPush (url : string).

(** Effects so far, and the value unless an exception is in flight. *)
Definition Act (A : Type) : Type := list Effect * option A.

#[global] Instance Act_ret : MRet Act := fun A a => ([], Some a).
#[global] Instance Act_bind : MBind Act := fun A B k m =>
  match m with
  | (t, Some a) => let '(t', b) := k a in (t ++ t', b)
  | (t, None) => (t, None)
  end.

Definition raise {A} : Act A := ([], None).

Definition perform (e : Effect) : Act unit := ([e], Some tt).

(** [try { body } catch (error) { handler }] *)
Definition catching {A} (body : Act A) (handler : Act A) : Act A :=
  match body with
  | (t, Some a) => (t, Some a)
  | (t, None) => let '(t', b) := handler in (t ++ t', b)
  end.

(** A member read in a template literal: [undefined] prints as such. *)
Definition shown (member : option string) : string := default "undefined" member.

(** [data.member]: throws on [null]. *)
Definition memberOf (pick : option string * option string * option string -> option string)
    (data : AcceptJson) : Act (option string) :=
  match data with
  | AcceptNull => raise
  | AcceptObject n w m => mret (pick (n, w, m))
  end.

Section Page.
Variable world : World.

Definition fetchAccept (url : string) : Act AcceptResponse :=
  perform (FetchPost url) ;;
  match acceptApi world url with
  | AcceptRejects => raise
  | AcceptResponds response => mret response
  end.

(** The branch for a redirect that starts with /invite/. *)
Definition acceptInvitation (redirectUrl : string) : Act unit :=
  let token := replaceFirst "/invite/" "" redirectUrl in
  catching
    (acceptRes ← fetchAccept ("/api/invitations/" +:+ token +:+ "/accept");
     if ok acceptRes then
       acceptData ← match json acceptRes with
                    | Some data => mret data
                    | None => raise
                    end;
       name ← memberOf (fun '(n, _, _) => n) acceptData;
       perform (Toast "success" ("Successfully joined " +:+ shown name +:+ "!")) ;;
       workspace ← memberOf (fun '(_, w, _) => w) acceptData;
       perform (RouterPush ("/?invitedWorkspace=" +:+ shown workspace))
     else
       errorData ← mret (default (AcceptObject None None None) (json acceptRes));
       message ← memberOf (fun '(_, _, m) => m) errorData;
       perform (Toast "error"
                  (if truthy message then default "" message
                   else "Failed to accept invitation. Please try again.")) ;;
       perform (RouterPush redirectUrl))
    (perform (ConsoleError "[Login] Error accepting invitation:") ;;
     perform (Toast "error" "Failed to accept invitation. Please try again.") ;;
     perform (RouterPush redirectUrl)).

(** The callback passed to [updateSession().then]. *)
Definition afterSessionUpdate (redirectUrl : option string) : Act unit :=
  match redirectUrl with
  | Some url =>
      if String.prefix "/invite/" url then acceptInvitation url
      else if truthy redirectUrl then perform (RouterPush url)
      else perform (RouterPush "/")
  | None => perform (RouterPush "/")
  end.

(** The effect on [state.status]. *)
Definition onStatus (status : string) (redirectUrl : option string) : Act unit :=
  if String.eqb status "failed" then
    perform (Toast "error" "Invalid credentials!")
  else if String.eqb status "invalid_data" then
    perform (Toast "error" "Failed validating your submission!")
  else if String.eqb status "success" then
    perform (SetIsSuccessful true) ;;
    perform UpdateSession ;;
    if sessionUpdates world then afterSessionUpdate redirectUrl else mret tt
  else mret tt.
End Page.

Definition navigations (t : list Effect) : list string :=
  flat_map (fun e => match e with RouterPush url => [url] | _ => [] end) t.

Definition toasts (t : list Effect) : list (string * string) :=
  flat_map (fun e => match e with Toast ty d => [(ty, d)] | _ => [] end) t.

Definition posts (t : list Effect) : list string :=
  flat_map (fun e => match e with FetchPost url => [url] | _ => [] end) t.

End LoginPage.

(** * The route that lists the members of a workspace *)

Module MembersRoute.

Inductive Outcome (A : Type) :=
| Resolves (a : A)
| Rejects.
Arguments Resolves {A}.
Arguments Rejects {A}.

(** [session?.user] and its [id]. *)
Record User := mkUser { userId : string }.
Record Session := mkSession { user : option User }.

Inductive Event :=
| GetWorkspaceMember (workspaceId userId : string)
| GetWorkspaceMembers (workspaceId : string)
| ConsoleError (msg : string).

Section Handler.
(** The rows of the membership table; the queries are in lib/db/queries. *)
Variable Member : Type.

Inductive Response :=
| ErrorResponse (code : string) (cause : option string)
    (* new ChatSDKError(code, cause).toResponse() *)
| JsonMembers (members : list Member).
    (* NextResponse.json({ members }) *)

(** What the handler meets: [auth()], [params], and the two queries. *)
Record World := mkWorld {
  auth : Outcome (option Session);
  params : Outcome string;
  getWorkspaceMember : string -> string -> Outcome (option Member);
  getWorkspaceMembers : string -> Outcome (list Member)
}.

Definition databaseError : Response :=
  ErrorResponse "bad_request:database" (Some "Failed to fetch workspace members").

(** The handler: the queries made and log lines written, and the response,
    or [None] when the handler itself rejects. *)
Definition GET (world : World) : list Event * option Response :=
  match auth world with
  | Rejects => ([], None)
  | Resolves session =>
      match session ≫= user with
      | None => ([], Some (ErrorResponse "unauthorized:workspace" None))
      | Some sessionUser =>
          match params world with
          | Rejects => ([], None)
          | Resolves workspaceId =>
              let failed := ConsoleError "[Workspace Members API] Failed to fetch members" in
              match getWorkspaceMember world workspaceId (userId sessionUser) with
              | Rejects =>
                  ([GetWorkspaceMember workspaceId (userId sessionUser); failed],
                   Some databaseError)
              | Resolves None =>
                  ([GetWorkspaceMember workspaceId (userId sessionUser)],
                   Some (ErrorResponse "forbidden:workspace"
                           (Some "Not a member of this workspace")))
              | Resolves (Some _) =>
                  match getWorkspaceMembers world workspaceId with
                  | Rejects =>
                      ([GetWorkspaceMember workspaceId (userId sessionUser);
                        GetWorkspaceMembers workspaceId; failed],
                       Some databaseError)
                  | Resolves members =>
                      ([GetWorkspaceMember workspaceId (userId sessionUser);
                        GetWorkspaceMembers workspaceId],
                       Some (JsonMembers members))
                  end
              end
          end
      end
  end.
End Handler.
Arguments ErrorResponse {Member}.
Arguments JsonMembers {Member}.
Arguments databaseError {Member}.
Arguments mkWorld {Member}.
Arguments auth {Member}.
Arguments params {Member}.
Arguments getWorkspaceMember {Member}.
Arguments getWorkspaceMembers {Member}.
Arguments GET {Member}.

(** A signed-in member u1 of workspace w1, whose members are ann and
    bob (rows are names here). *)
Definition sampleWorld : World string :=
  {| auth := Resolves (Some (mkSession (Some (mkUser "u1"))));
     params := Resolves "w1"%string;
     getWorkspaceMember := fun ws u =>
       Resolves (if String.eqb ws "w1" && String.eqb u "u1"
                 then Some "ann"%string else None);
     getWorkspaceMembers := fun ws => Resolves ["ann"; "bob"]%string |}.

(** Nobody is signed in. *)
Definition signedOut : World string :=
  {| auth := Resolves None;
     params := Resolves "w1"%string;
     getWorkspaceMember := fun _ _ => Rejects;
     getWorkspaceMembers := fun _ => Rejects |}.

(** The member u1 asks while the listing query fails. *)
Definition brokenListing : World string :=
  {| auth := Resolves (Some (mkSession (Some (mkUser "u1"))));
     params := Resolves "w1"%string;
     getWorkspaceMember := fun _ _ => Resolves (Some "ann"%string);
     getWorkspaceMembers := fun _ => Rejects |}.

End MembersRoute.

(** * More vocabulary for the facts that follow *)

Module MoreTerms.
Import MemoryGraph.
Local Open Scope Z_scope.

(** [totalLoaded] counts the items. *)
Definition counted (s : State) : Prop :=
  totalLoaded s = Z.of_nat (length (documents s)).

(** The second and last page of the spec's example: 100 documents. *)
Definition oneHundred : list DocumentWithMemories := repeat DialogTerms.doc2 100.

Definition lastPage : DocumentsJson :=
  JsonObject (Some oneHundred)
    (Some {| Pagination.currentPage := 2; Pagination.totalPages := 2;
             Pagination.totalItems := 600; Pagination.limit := 100 |}).

(** A reserved title in capitals, with blanks before and a tab and a blank
    after. *)
Definition shoutedProfile : Chat :=
  mkChat "p" (Some ("  " +:+ "PROfile" +:+ String "009" " ")) (ValidDate 3).

Fixpoint allWhiteSpace (s : string) : bool :=
  match s with
  | EmptyString => true
  | String c s' => isWhiteSpace c && allWhiteSpace s'
  end.

Fixpoint noWhiteSpace (s : string) : bool :=
  match s with
  | EmptyString => true
  | String c s' => negb (isWhiteSpace c) && noWhiteSpace s'
  end.

End MoreTerms.

(** * Facts about the visibility hook *)

Module VisibilityFacts.
Import ChatVisibility.

Lemma truthy_Some v : truthy v = true -> exists s, v = Some s /\ s <> ""%string.
Proof.
  destruct v as [s|]; simpl; [|discriminate].
  destruct (String.eqb_spec s ""); [discriminate|]. intros _. eauto.
Qed.

Lemma findChat_none chatId h :
  (forall chat, In chat (chats h) -> id chat <> chatId) ->
  findChat chatId h = None.
Proof.
  unfold findChat. destruct h as [l]. simpl. intros Hall.
  induction l as [|c l IH]; simpl; [reflexivity|].
  destruct (String.eqb_spec (id c) chatId) as [E|_].
  - exfalso. apply (Hall c); [now left | exact E].
  - apply IH. intros chat Hin. apply Hall. now right.
Qed.

Lemma findChat_first chatId before chat after :
  (forall c, In c before -> id c <> chatId) ->
  id chat = chatId ->
  findChat chatId (mkHistory (before ++ chat :: after)) = Some chat.
Proof.
  unfold findChat. simpl. intros Hbefore Hid.
  induction before as [|c l IH]; simpl.
  - rewrite Hid, String.eqb_refl. reflexivity.
  - destruct (String.eqb_spec (id c) chatId) as [E|_].
    + exfalso. apply (Hbefore c); [now left | exact E].
    + apply IH. intros c' Hin. apply Hbefore. now right.
Qed.

(** C1. Reading the visibility of [chatId]: when the cache holds a history
    list, the first chat of that list with this id decides, whatever the
    local value is; when the list holds no chat with this id the answer is
    [private], whatever the local value is; only without a history list is
    the local value returned, and that is [initialVisibilityType] until a
    value has been stored. *)
Theorem visibility_read_resolution
    (chatId : string) (initial : VisibilityType)
    (localData : gmap string VisibilityType) :
  (forall h,
      (exists c, In c (chats h) /\ id c = chatId) ->
      exists chat,
        In chat (chats h) /\ id chat = chatId
        /\ visibilityType chatId initial (mkCache (Some h) localData)
           = visibility chat)
  /\ (forall before chat after,
      (forall c, In c before -> id c <> chatId) ->
      id chat = chatId ->
      visibilityType chatId initial
        (mkCache (Some (mkHistory (before ++ chat :: after))) localData)
      = visibility chat)
  /\ (forall h,
      (forall chat, In chat (chats h) -> id chat <> chatId) ->
      visibilityType chatId initial (mkCache (Some h) localData) = private)
  /\ visibilityType chatId initial (mkCache None localData)
     = default initial (localData !! chatId)
  /\ visibilityType chatId initial (mkCache None ∅) = initial
  /\ (forall v,
      visibilityType chatId initial
        (setLocalVisibility chatId v (mkCache None localData)) = v).
Proof.
  split; [|repeat split].
  - intros h (c & Hin & Hid). unfold visibilityType, history. simpl.
    destruct (findChat chatId h) as [chat|] eqn:Hfind; unfold findChat in Hfind.
    + apply find_some in Hfind as [Hchat Heq]. apply String.eqb_eq in Heq. eauto.
    + apply (find_none _ _ Hfind) in Hin. simpl in Hin.
      rewrite Hid, String.eqb_refl in Hin. discriminate.
  - intros before chat after Hbefore Hid. unfold visibilityType, history. simpl.
    now rewrite findChat_first.
  - intros h Hnone. unfold visibilityType, history. simpl.
    now rewrite findChat_none.
  - intros v. unfold visibilityType, history, localVisibility. simpl.
    now rewrite lookup_insert_eq.
Qed.

(** The spec's example: the history holds c1 as public while the local
    value was just set to private. *)
Lemma visibility_read_resolution_witness :
  visibilityType "c1" private
    (mkCache (Some (mkHistory ([] ++ mkChat "c1" public None :: [])))
             {["c1"%string := private]})
  = public
  /\ visibilityType "c1" public
       (mkCache (Some (mkHistory [mkChat "c2" public None]))
                {["c1"%string := public]})
     = private.
Proof.
  split.
  - apply (visibility_read_resolution "c1" private {["c1"%string := private]}).
    + intros c [].
    + reflexivity.
  - apply (visibility_read_resolution "c1" public {["c1"%string := public]}).
    intros chat [<-|[]]. simpl. discriminate.
Defined.

Lemma js_or_firstResolved a b c :
  truthy (js_or (js_or a b) c) = true ->
  firstResolved [a; b; c] = js_or (js_or a b) c.
Proof.
  unfold firstResolved, js_or. simpl.
  destruct (truthy a) eqn:Ha; simpl.
  - rewrite Ha. reflexivity.
  - destruct (truthy b) eqn:Hb; simpl; [reflexivity|].
    intros Hc. rewrite Hc. reflexivity.
Qed.

Lemma js_or_unresolved a b c :
  truthy (js_or (js_or a b) c) = false ->
  firstResolved [a; b; c] = None.
Proof.
  unfold firstResolved, js_or. simpl.
  destruct (truthy a) eqn:Ha; simpl.
  - rewrite Ha. intros H. congruence.
  - destruct (truthy b) eqn:Hb; simpl; [rewrite Hb; intros H; congruence|].
    intros Hc. rewrite Hc. reflexivity.
Qed.

Lemma recordWorkspaceId_first chatId cache before chat after :
  historyData cache = Some (mkHistory (before ++ chat :: after)) ->
  (forall c, In c before -> id c <> chatId) ->
  id chat = chatId ->
  recordWorkspaceId chatId cache = workspaceId chat.
Proof.
  intros Hh Hbefore Hid. unfold recordWorkspaceId, history. rewrite Hh. simpl.
  now rewrite (findChat_first chatId before chat after Hbefore Hid).
Qed.

Lemma setVisibilityType_effects chatId workspaceIdProp v cache env :
  snd (setVisibilityType chatId workspaceIdProp v cache env)
  = SetLocalVisibility chatId v
      :: match firstResolved [workspaceIdProp; recordWorkspaceId chatId cache;
                              storedWorkspaceId env] with
         | Some ws => [Mutate ws]
         | None => []
         end
      ++ [UpdateChatVisibility chatId v].
Proof.
  unfold setVisibilityType, chatWorkspaceId. simpl.
  destruct (truthy (js_or (js_or workspaceIdProp (recordWorkspaceId chatId cache))
                          (storedWorkspaceId env))) eqn:Ht.
  - rewrite (js_or_firstResolved _ _ _ Ht).
    destruct (truthy_Some _ Ht) as (ws & -> & _). reflexivity.
  - rewrite (js_or_unresolved _ _ _ Ht).
    destruct (js_or _ _); reflexivity.
Qed.

Lemma truthy_usable w : w <> ""%string -> truthy (Some w) = true.
Proof.
  intros Hw. simpl. now destruct (String.eqb_spec w "").
Qed.

(** C9. Writing a visibility. The local value is stored first (and reads
    back as the new value, the history entry being untouched), the
    persistence call is made last, and between the two the paginated
    history key of at most one workspace is invalidated. That workspace is
    the hook's argument when it is usable (neither absent nor empty);
    else the [workspaceId] of the first chat with this id in the history
    list of the cache, when usable; else the value stored under
    [sunsetLastWorkspace], when there is a [window] and the value is
    usable; and when none of the three is usable nothing is invalidated.
    The call returns to its caller whatever becomes of the promise of the
    persistence call, also when that promise never settles. *)
Theorem set_visibility_write
    (chatId : string) (initial : VisibilityType) (workspaceIdProp : option string)
    (v : VisibilityType) (cache : Cache) (env : Browser) :
  let result := setVisibilityType chatId workspaceIdProp v cache env in
  let resolved :=
    firstResolved [workspaceIdProp; recordWorkspaceId chatId cache;
                   storedWorkspaceId env] in
  let invalidates (ws : option string) :=
    snd result
    = SetLocalVisibility chatId v
        :: match ws with
           | Some w => [Mutate w]
           | None => []
           end
        ++ [UpdateChatVisibility chatId v] in
  let noRecord :=
    historyData cache = None
    \/ (exists h, historyData cache = Some h
                  /\ forall c, In c (chats h) -> id c <> chatId)
    \/ (exists before chat after,
           historyData cache = Some (mkHistory (before ++ chat :: after))
           /\ (forall c, In c before -> id c <> chatId)
           /\ id chat = chatId
           /\ truthy (workspaceId chat) = false) in
  localVisibility chatId initial (fst result) = v
  /\ historyData (fst result) = historyData cache
  /\ invalidates resolved
  /\ (forall ws, In (Mutate ws) (snd result) <-> resolved = Some ws)
  /\ List.last (snd result) (SetLocalVisibility chatId v)
     = UpdateChatVisibility chatId v
  /\ (forall w, workspaceIdProp = Some w -> w <> ""%string ->
                invalidates (Some w))
  /\ (forall before chat after w,
         truthy workspaceIdProp = false ->
         historyData cache = Some (mkHistory (before ++ chat :: after)) ->
         (forall c, In c before -> id c <> chatId) ->
         id chat = chatId ->
         workspaceId chat = Some w -> w <> ""%string ->
         invalidates (Some w))
  /\ (forall w, truthy workspaceIdProp = false -> noRecord ->
                window env = true ->
                sunsetLastWorkspace env = Some w -> w <> ""%string ->
                invalidates (Some w))
  /\ (truthy workspaceIdProp = false -> noRecord ->
      window env = false \/ truthy (sunsetLastWorkspace env) = false ->
      invalidates None)
  /\ (forall persistence,
         setVisibilityTypeCall chatId workspaceIdProp v cache env persistence
         = (result, GoesOn)).
Proof.
  intros result resolved invalidates noRecord.
  assert (Htrace : invalidates resolved)
    by apply setVisibilityType_effects.
  assert (Hrecord : noRecord -> truthy (recordWorkspaceId chatId cache) = false).
  { intros [Hnone | [(h & Hh & Hall) | (before & chat & after & Hh & Hbefore & Hid & Hws)]].
    - unfold recordWorkspaceId, history. now rewrite Hnone.
    - unfold recordWorkspaceId, history. rewrite Hh. simpl.
      now rewrite (findChat_none chatId h Hall).
    - now rewrite (recordWorkspaceId_first _ _ _ _ _ Hh Hbefore Hid). }
  assert (Hfirst : forall w, resolved = Some w -> invalidates (Some w)).
  { intros w Hw. unfold invalidates in Htrace |- *.
    rewrite Hw in Htrace. exact Htrace. }
  split; [|split; [|split; [|split; [|split; [|split; [|split; [|split; [|split]]]]]]]].
  - subst result. unfold setVisibilityType, localVisibility. simpl.
    now rewrite lookup_insert_eq.
  - reflexivity.
  - exact Htrace.
  - unfold invalidates in Htrace. rewrite Htrace.
    destruct resolved as [ws'|]; simpl.
    + intros ws. split; [intros [H|[H|[H|[]]]]; congruence | intros [= ->]; auto].
    + intros ws. split; [intros [H|[H|[]]]; congruence | discriminate].
  - unfold invalidates in Htrace. rewrite Htrace. destruct resolved; reflexivity.
  - intros w -> Hw. apply Hfirst. subst resolved. unfold firstResolved. simpl.
    destruct (String.eqb_spec w ""); [contradiction | reflexivity].
  - intros before chat after w Hprop Hh Hbefore Hid Hws Hw. apply Hfirst.
    subst resolved. unfold firstResolved. cbn [List.find]. rewrite Hprop.
    rewrite (recordWorkspaceId_first _ _ _ _ _ Hh Hbefore Hid), Hws.
    now rewrite (truthy_usable w Hw).
  - intros w Hprop Hnone Hwindow Hstored Hw. apply Hfirst.
    subst resolved. unfold firstResolved. cbn [List.find].
    rewrite Hprop, (Hrecord Hnone). unfold storedWorkspaceId.
    rewrite Hwindow, Hstored. now rewrite (truthy_usable w Hw).
  - intros Hprop Hnone Hstored.
    assert (Hnothing : resolved = None).
    { subst resolved. unfold firstResolved. cbn [List.find].
      rewrite Hprop, (Hrecord Hnone). unfold storedWorkspaceId.
      destruct Hstored as [-> | Hstored]; [reflexivity|].
      destruct (window env); [now rewrite Hstored | reflexivity]. }
    unfold invalidates in Htrace |- *. rewrite Hnothing in Htrace. exact Htrace.
  - intros persistence. reflexivity.
Qed.

(** The chat c1 is the second entry of the history list, with workspace
    w1: written with no argument, w1 is invalidated, not the stored w9.
    Without a history list and with an empty argument, the stored w9 is
    invalidated; without a [window], nothing is. And the call has returned
    while the persistence promise is still pending. *)
Lemma set_visibility_write_witness :
  let listed :=
    mkCache (Some (mkHistory ([mkChat "c0" public (Some "w0"%string)]
                                ++ mkChat "c1" private (Some "w1"%string) :: []))) ∅ in
  let browser := mkBrowser true (Some "w9"%string) in
  snd (setVisibilityType "c1" None public listed browser)
  = [SetLocalVisibility "c1" public; Mutate "w1"; UpdateChatVisibility "c1" public]
  /\ snd (setVisibilityType "c1" (Some ""%string) public (mkCache None ∅) browser)
     = [SetLocalVisibility "c1" public; Mutate "w9"; UpdateChatVisibility "c1" public]
  /\ snd (setVisibilityType "c1" None public (mkCache None ∅)
            (mkBrowser false (Some "w9"%string)))
     = [SetLocalVisibility "c1" public; UpdateChatVisibility "c1" public]
  /\ setVisibilityTypeCall "c1" None public listed browser StaysPending
     = (setVisibilityType "c1" None public listed browser, GoesOn).
Proof.
  intros listed browser.
  destruct (set_visibility_write "c1" private None public listed browser)
    as (_ & _ & _ & _ & _ & _ & Hrecord & _ & _ & Hreturns).
  destruct (set_visibility_write "c1" private (Some ""%string) public
              (mkCache None ∅) browser)
    as (_ & _ & _ & _ & _ & _ & _ & Hstored & _).
  destruct (set_visibility_write "c1" private None public (mkCache None ∅)
              (mkBrowser false (Some "w9"%string)))
    as (_ & _ & _ & _ & _ & _ & _ & _ & Hnothing & _).
  split; [|split; [|split]].
  - apply (Hrecord [mkChat "c0" public (Some "w0"%string)]
             (mkChat "c1" private (Some "w1"%string)) [] "w1"%string);
      try reflexivity; try discriminate.
    intros c [<-|[]]. discriminate.
  - apply (Hstored "w9"%string); try reflexivity; try discriminate. now left.
  - apply Hnothing; [reflexivity | now left | now left].
  - apply Hreturns.
Defined.

End VisibilityFacts.

(** * The sort: consistent comparators, and a sort that conforms *)

Module SortFacts.
Import MemoryGraph.
Local Open Scope Z_scope.

Section Comparator.
Context {A : Type} (compareFn : A -> A -> Z).

Lemma consistentOn_incl l l' :
  consistentOn compareFn l -> (forall x, In x l' -> In x l) ->
  consistentOn compareFn l'.
Proof.
  intros Hl Hincl a b c Ha Hb Hc. apply Hl; auto.
Qed.

(** What [a] does not stand behind does not stand before [a]; with
    consistency a value compares with itself as equal, so the two signs of
    a pair are opposite. *)
Lemma consistent_flip l a b :
  consistentOn compareFn l -> In a l -> In b l ->
  (compareFn a b <= 0 -> 0 <= compareFn b a)
  /\ (0 <= compareFn a b -> compareFn b a <= 0).
Proof.
  intros Hl Ha Hb.
  pose proof (Hl a b a Ha Hb Ha) as (Haa & Hsym & _ & Hlt & Hgt).
  pose proof (Hl b a b Hb Ha Hb) as (Hbb & Hsym' & _ & Hlt' & Hgt').
  split; intros H.
  - destruct (Z.eq_dec (compareFn a b) 0) as [E|E]; [rewrite (Hsym E); lia|].
    destruct (Z_lt_le_dec (compareFn b a) 0) as [Hba|Hba]; [|exact Hba].
    assert (compareFn a a < 0) by (apply Hlt; lia). lia.
  - destruct (Z.eq_dec (compareFn a b) 0) as [E|E]; [rewrite (Hsym E); lia|].
    destruct (Z_lt_le_dec 0 (compareFn b a)) as [Hba|Hba]; [|exact Hba].
    assert (0 < compareFn a a) by (apply Hgt; lia). lia.
Qed.

(** "Not behind" is transitive on the values of a consistent comparator. *)
Lemma consistent_chain l a b c :
  consistentOn compareFn l -> In a l -> In b l -> In c l ->
  0 <= compareFn b a -> 0 <= compareFn c b -> 0 <= compareFn c a.
Proof.
  intros Hl Ha Hb Hc Hba Hcb.
  destruct (Z_lt_le_dec (compareFn c a) 0) as [Hca|Hca]; [exfalso|exact Hca].
  pose proof (Hl c b a Hc Hb Ha) as (_ & _ & Heq & _ & Hgt).
  pose proof (Hl c a b Hc Ha Hb) as (_ & _ & _ & Hlt & _).
  pose proof (Hl b c a Hb Hc Ha) as (_ & _ & _ & Hlt' & _).
  destruct (consistent_flip l a b Hl Ha Hb) as [_ Hab].
  destruct (consistent_flip l b a Hl Hb Ha) as [Hba' _].
  destruct (consistent_flip l b c Hl Hb Hc) as [_ Hbc].
  destruct (consistent_flip l c b Hl Hc Hb) as [Hcb' _].
  pose proof (Hl a b a Ha Hb Ha) as (_ & Hsym & _).
  pose proof (Hl b c b Hb Hc Hb) as (_ & Hsym' & _).
  pose proof (Hl b a b Hb Ha Hb) as (_ & Hsym'' & _).
  destruct (Z.eq_dec (compareFn b a) 0) as [Eba|Eba];
    destruct (Z.eq_dec (compareFn c b) 0) as [Ecb|Ecb].
  - specialize (Heq Ecb Eba). lia.
  - (* b before c strictly, c before a strictly: b before a *)
    assert (compareFn b c < 0).
    { specialize (Hbc ltac:(lia)).
      destruct (Z.eq_dec (compareFn b c) 0) as [E|E]; [|lia].
      specialize (Hsym' E). lia. }
    specialize (Hlt' ltac:(lia) Hca). lia.
  - (* a before b strictly, c before a strictly: c before b *)
    assert (compareFn a b < 0).
    { specialize (Hab ltac:(lia)).
      destruct (Z.eq_dec (compareFn a b) 0) as [E|E]; [|lia].
      specialize (Hsym E). lia. }
    specialize (Hlt Hca ltac:(lia)). lia.
  - specialize (Hgt ltac:(lia) ltac:(lia)). lia.
Qed.

(** ** Stable insertion conforms *)

Lemma insertSorted_perm x l : Permutation (insertSorted compareFn x l) (x :: l).
Proof.
  induction l as [|y l IH]; simpl; [reflexivity|].
  destruct (0 <? compareFn x y); [|reflexivity].
  rewrite IH. apply perm_swap.
Qed.

Lemma insertionSort_perm l : Permutation (insertionSort compareFn l) l.
Proof.
  induction l as [|x l IH]; simpl; [reflexivity|].
  rewrite insertSorted_perm. now constructor.
Qed.

Lemma insertSorted_orders x m :
  consistentOn compareFn (x :: m) ->
  StronglySorted (fun a b => 0 <= compareFn b a) m ->
  StronglySorted (fun a b => 0 <= compareFn b a) (insertSorted compareFn x m).
Proof.
  intros Hcons Hsorted. induction Hsorted as [|y m Hsorted IH Hy]; simpl.
  - repeat constructor.
  - destruct (0 <? compareFn x y) eqn:Hcmp.
    + apply Z.ltb_lt in Hcmp. constructor.
      * apply IH. eapply consistentOn_incl; [exact Hcons|].
        intros z [<-|Hz]; [now left | now right; right].
      * rewrite (insertSorted_perm x m). constructor; [lia | exact Hy].
    + apply Z.ltb_ge in Hcmp.
      assert (Hxy : 0 <= compareFn y x).
      { apply (consistent_flip (x :: y :: m) x y Hcons); simpl; auto. }
      constructor; [now constructor|]. constructor; [exact Hxy|].
      rewrite Forall_forall in Hy |- *. intros z Hz.
      apply list_elem_of_In in Hz.
      apply (consistent_chain (x :: y :: m) x y z Hcons); simpl; auto.
      apply Hy. now apply list_elem_of_In.
Qed.

Lemma insertionSort_orders l :
  consistentOn compareFn l ->
  StronglySorted (fun a b => 0 <= compareFn b a) (insertionSort compareFn l).
Proof.
  induction l as [|x l IH]; intros Hcons; simpl; [constructor|].
  apply insertSorted_orders.
  - eapply consistentOn_incl; [exact Hcons|].
    intros z [<-|Hz]; [now left|]. right.
    apply list_elem_of_In. rewrite <- (insertionSort_perm l).
    now apply list_elem_of_In.
  - apply IH. eapply consistentOn_incl; [exact Hcons|]. intros z Hz. now right.
Qed.

Lemma insertSorted_rank x0 x m :
  consistentOn compareFn (x0 :: x :: m) ->
  List.filter (sameRank compareFn x0) (insertSorted compareFn x m)
  = List.filter (sameRank compareFn x0) (x :: m).
Proof.
  intros Hcons. induction m as [|y m IH]; [reflexivity|].
  simpl insertSorted. destruct (0 <? compareFn x y) eqn:Hcmp; [|reflexivity].
  apply Z.ltb_lt in Hcmp. cbn [List.filter]. rewrite IH.
  - cbn [List.filter]. unfold sameRank.
    destruct (compareFn x0 x =? 0) eqn:Hx, (compareFn x0 y =? 0) eqn:Hy;
      try reflexivity.
    apply Z.eqb_eq in Hx, Hy. exfalso.
    pose proof (Hcons x x0 y) as (_ & _ & Heq & _); simpl; auto.
    pose proof (Hcons x0 x x0) as (_ & Hsym & _); simpl; auto.
    specialize (Heq (Hsym Hx) Hy). lia.
  - eapply consistentOn_incl; [exact Hcons|].
    intros z [<-|[<-|Hz]]; simpl; auto.
Qed.

Lemma insertionSort_rank x0 l :
  consistentOn compareFn (x0 :: l) ->
  List.filter (sameRank compareFn x0) (insertionSort compareFn l)
  = List.filter (sameRank compareFn x0) l.
Proof.
  induction l as [|x l IH]; intros Hcons; [reflexivity|].
  simpl insertionSort. rewrite insertSorted_rank.
  - cbn [List.filter]. rewrite IH; [reflexivity|].
    eapply consistentOn_incl; [exact Hcons|].
    intros z [<-|Hz]; simpl; auto.
  - eapply consistentOn_incl; [exact Hcons|].
    intros z [<-|[<-|Hz]]; simpl; auto. right. right.
    apply list_elem_of_In. rewrite <- (insertionSort_perm l).
    now apply list_elem_of_In.
Qed.

Lemma insertionSort_stable l x :
  consistentOn compareFn l -> In x l ->
  List.filter (sameRank compareFn x) (insertionSort compareFn l)
  = List.filter (sameRank compareFn x) l.
Proof.
  intros Hcons Hx. apply insertionSort_rank.
  eapply consistentOn_incl; [exact Hcons|]. intros z [<-|Hz]; assumption.
Qed.

(** ** A sorted, stable arrangement is the only one *)

Lemma sorted_stable_unique r1 r2 :
  consistentOn compareFn r2 ->
  Permutation r1 r2 ->
  StronglySorted (fun a b => 0 <= compareFn b a) r1 ->
  StronglySorted (fun a b => 0 <= compareFn b a) r2 ->
  (forall x, In x r2 ->
             List.filter (sameRank compareFn x) r1
             = List.filter (sameRank compareFn x) r2) ->
  r1 = r2.
Proof.
  revert r2. induction r1 as [|h1 t1 IH]; intros r2 Hcons Hperm Hs1 Hs2 Hrank.
  - apply Permutation_nil in Hperm. now subst.
  - destruct r2 as [|h2 t2];
      [symmetry in Hperm; apply Permutation_nil in Hperm; discriminate|].
    assert (Hin1 : In h1 (h2 :: t2)).
    { apply list_elem_of_In. rewrite <- Hperm. now left. }
    assert (Hin2 : In h2 (h1 :: t1)).
    { apply list_elem_of_In. rewrite Hperm. now left. }
    assert (Hh : h1 = h2).
    { pose proof (Hrank h1 Hin1) as Hr. cbn [List.filter] in Hr.
      pose proof (Hcons h1 h1 h1 Hin1 Hin1 Hin1) as (Hrefl & _).
      assert (Hself : sameRank compareFn h1 h1 = true)
        by (unfold sameRank; rewrite Hrefl; reflexivity).
      rewrite Hself in Hr.
      destruct (sameRank compareFn h1 h2) eqn:E; [now injection Hr|].
      unfold sameRank in E. apply Z.eqb_neq in E. exfalso.
      apply StronglySorted_inv in Hs1 as [_ Hf1].
      apply StronglySorted_inv in Hs2 as [_ Hf2].
      rewrite Forall_forall in Hf1, Hf2.
      assert (H21 : 0 <= compareFn h2 h1).
      { destruct Hin2 as [->|Hin2]; [lia|]. now apply Hf1, list_elem_of_In. }
      assert (H12 : 0 <= compareFn h1 h2).
      { destruct Hin1 as [<-|Hin1]; [lia|]. now apply Hf2, list_elem_of_In. }
      assert (Hh2 : In h2 (h2 :: t2)) by now left.
      destruct (consistent_flip (h2 :: t2) h2 h1 Hcons Hh2 Hin1) as [_ Hflip].
      specialize (Hflip H21). lia. }
    subst h2. f_equal. apply IH.
    + eapply consistentOn_incl; [exact Hcons|]. intros z Hz. now right.
    + now apply Permutation_cons_inv in Hperm.
    + now apply StronglySorted_inv in Hs1.
    + now apply StronglySorted_inv in Hs2.
    + intros x Hx. specialize (Hrank x (or_intror Hx)).
      cbn [List.filter] in Hrank.
      destruct (sameRank compareFn x h1); [now injection Hrank | exact Hrank].
Qed.
End Comparator.

End SortFacts.

(** Stable insertion as a sort of the runtime: the sort of the sample
    runs. *)
#[global] Instance stableInsertion : MemoryGraph.ArraySort :=
  {| MemoryGraph.array_sort := @MemoryGraph.insertionSort;
     MemoryGraph.array_sort_permutes := @SortFacts.insertionSort_perm;
     MemoryGraph.array_sort_orders := @SortFacts.insertionSort_orders;
     MemoryGraph.array_sort_stable := @SortFacts.insertionSort_stable |}.

(** * Facts about the memory-graph dialog *)

Module DialogFacts.
Import MemoryGraph DialogTerms.
Local Open Scope Z_scope.

(** ** Reading traces *)

Lemma requests_of_app t1 t2 : requests_of (t1 ++ t2) = requests_of t1 ++ requests_of t2.
Proof. apply flat_map_app. Qed.

Lemma snapshots_of_app t1 t2 : snapshots_of (t1 ++ t2) = snapshots_of t1 ++ snapshots_of t2.
Proof. apply flat_map_app. Qed.

Arguments fetchDocuments : simpl never.

Ltac step :=
  unfold mbind, M_bind, mret, M_ret, bind, ret, throw, try_catch, try_finally,
    await, emit, gets, fetch, responseText, responseJson,
    setDocuments, setIsLoading, setIsLoadingMore, setError, setCurrentPage,
    setHasMore, setTotalLoaded, setChats, setSelectedChatId,
    get_documents, descriptor_hasMore; simpl.

(** ** The paged fetch client, case by case *)

Lemma fetchDocuments_absent net page limit s :
  truthy (selectedChatId s) = false ->
  fetchDocuments net page limit s
  = (s, [ConsoleWarn "[MemoryGraphDialog] No chat selected; skipping fetch."],
     Normal (emptyResult limit)).
Proof.
  intros H. unfold fetchDocuments. step. rewrite H. reflexivity.
Qed.

Lemma fetchDocuments_rejects net page limit s :
  truthy (selectedChatId s) = true ->
  documentsApi net (documentsRequest s page limit) = Rejects ->
  fetchDocuments net page limit s
  = (s, [Fetch (documentsRequest s page limit); Suspended s;
         ConsoleError "[MemoryGraphDialog] Error fetching documents:"],
     Normal (emptyResult limit)).
Proof.
  intros H R. unfold fetchDocuments. step. rewrite H. simpl.
  unfold documentsRequest in R. rewrite R. reflexivity.
Qed.

Lemma fetchDocuments_responds net page limit s r :
  truthy (selectedChatId s) = true ->
  documentsApi net (documentsRequest s page limit) = Responds r ->
  fetchDocuments net page limit s
  = (s,
     Fetch (documentsRequest s page limit) :: Suspended s :: Suspended s ::
       (if ok r then
          match json r with
          | Some _ => []
          | None => [ConsoleError "[MemoryGraphDialog] Error fetching documents:"]
          end
        else [ConsoleError "[MemoryGraphDialog] Failed to fetch documents:"]),
     Normal (if ok r then default (emptyResult limit) (json r) else emptyResult limit)).
Proof.
  intros H R. unfold fetchDocuments. step. rewrite H. simpl.
  unfold documentsRequest in R. rewrite R.
  destruct r as [o st tx [j|]]; destruct o; reflexivity.
Qed.

(** Whatever the network does, the client returns normally, leaves the
    state alone, and sends at most the one request. *)
Lemma fetchDocuments_outcome net page limit s :
  exists t data,
    fetchDocuments net page limit s = (s, t, Normal data)
    /\ (forall s', In s' (snapshots_of t) -> s' = s)
    /\ requests_of t
       = if truthy (selectedChatId s) then [documentsRequest s page limit] else [].
Proof.
  destruct (truthy (selectedChatId s)) eqn:Hsel.
  - destruct (documentsApi net (documentsRequest s page limit)) as [|r] eqn:Hreply.
    + rewrite (fetchDocuments_rejects _ _ _ _ Hsel Hreply).
      do 2 eexists. split; [reflexivity|]. simpl. split; [|reflexivity].
      intros s' [<-|[]]. reflexivity.
    + rewrite (fetchDocuments_responds _ _ _ _ _ Hsel Hreply).
      do 2 eexists. split; [reflexivity|]. split.
      * destruct (ok r); [destruct (json r)|]; simpl;
          intros s' [<-|[<-|[]]]; reflexivity.
      * destruct (ok r); [destruct (json r)|]; reflexivity.
  - rewrite (fetchDocuments_absent _ _ _ _ Hsel).
    do 2 eexists. split; [reflexivity|]. simpl. split; [|reflexivity].
    intros s' [].
Qed.

(** C5. The paged fetch client is total. Without a selection key it
    returns the empty result with the zeroed descriptor at once, and no
    request leaves; when the transport fails, or the status is not a
    success, it logs and returns that same result; and in every case it
    returns normally, never by an exception. *)
Theorem fetchDocuments_never_throws (net : Network) (page limit : Z) (s : State) :
  emptyResult limit
  = JsonObject (Some [])
      (Some {| Pagination.currentPage := 1; Pagination.totalPages := 0;
               Pagination.totalItems := 0; Pagination.limit := limit |})
  /\ (truthy (selectedChatId s) = false ->
      fetchDocuments net page limit s
      = (s, [ConsoleWarn "[MemoryGraphDialog] No chat selected; skipping fetch."],
         Normal (emptyResult limit)))
  /\ (truthy (selectedChatId s) = true ->
      documentsApi net (documentsRequest s page limit) = Rejects ->
      fetchDocuments net page limit s
      = (s, [Fetch (documentsRequest s page limit); Suspended s;
             ConsoleError "[MemoryGraphDialog] Error fetching documents:"],
         Normal (emptyResult limit)))
  /\ (forall r,
      truthy (selectedChatId s) = true ->
      documentsApi net (documentsRequest s page limit) = Responds r ->
      ok r = false ->
      fetchDocuments net page limit s
      = (s, [Fetch (documentsRequest s page limit); Suspended s; Suspended s;
             ConsoleError "[MemoryGraphDialog] Failed to fetch documents:"],
         Normal (emptyResult limit)))
  /\ (exists t data, fetchDocuments net page limit s = (s, t, Normal data)).
Proof.
  split; [reflexivity|].
  split; [apply fetchDocuments_absent|].
  split; [apply fetchDocuments_rejects|].
  split.
  - intros r Hsel Hreply Hok.
    rewrite (fetchDocuments_responds _ _ _ _ _ Hsel Hreply), Hok. reflexivity.
  - destruct (fetchDocuments_outcome net page limit s) as (t & data & E & _).
    eauto.
Qed.

Lemma fetchDocuments_never_throws_witness :
  fetchDocuments offline 3 100 initialState
  = (initialState,
     [ConsoleWarn "[MemoryGraphDialog] No chat selected; skipping fetch."],
     Normal (emptyResult 100))
  /\ fetchDocuments offline 3 100 loaded
     = (loaded, [Fetch (documentsRequest loaded 3 100); Suspended loaded;
                 ConsoleError "[MemoryGraphDialog] Error fetching documents:"],
        Normal (emptyResult 100))
  /\ fetchDocuments serverError 3 100 loaded
     = (loaded, [Fetch (documentsRequest loaded 3 100); Suspended loaded;
                 Suspended loaded;
                 ConsoleError "[MemoryGraphDialog] Failed to fetch documents:"],
        Normal (emptyResult 100)).
Proof.
  split; [|split].
  - apply (fetchDocuments_never_throws offline 3 100 initialState). reflexivity.
  - apply (fetchDocuments_never_throws offline 3 100 loaded); reflexivity.
  - apply (fetchDocuments_never_throws serverError 3 100 loaded
             ) with (r := mkResponse false 500 (Some "oops"%string) None);
      reflexivity.
Defined.

(** ** The incremental loader *)

(** Neither loader touches the list of chats or the selection. *)
Lemma loadInitial_selection net s :
  selectedChatId (state_of (loadInitialDocuments net s)) = selectedChatId s
  /\ chats (state_of (loadInitialDocuments net s)) = chats s.
Proof.
  unfold loadInitialDocuments. step.
  match goal with
  | |- context [fetchDocuments net 1 500 ?s1] =>
      destruct (fetchDocuments_outcome net 1 500 s1) as (t & data & E & _);
      rewrite E
  end.
  destruct data as [|docs [pg|]]; simpl; auto.
Qed.

Lemma loadMore_selection net s :
  selectedChatId (state_of (loadMoreDocuments net s)) = selectedChatId s
  /\ chats (state_of (loadMoreDocuments net s)) = chats s.
Proof.
  unfold loadMoreDocuments. step.
  destruct (isLoadingMore s || negb (hasMore s)); simpl; [auto|].
  match goal with
  | |- context [fetchDocuments net ?p 100 ?s1] =>
      destruct (fetchDocuments_outcome net p 100 s1) as (t & data & E & _);
      rewrite E
  end.
  destruct data as [|[[|d ds]|] [pg|]]; simpl; auto.
Qed.

(** While [loadInitialDocuments] is suspended the component shows
    [isLoading] and no error. *)
Lemma loadInitial_snapshots net s :
  snapshots_of (trace_of (loadInitialDocuments net s)) <> []
  /\ forall s', In s' (snapshots_of (trace_of (loadInitialDocuments net s))) ->
                isLoading s' = true /\ error s' = None.
Proof.
  unfold loadInitialDocuments. step.
  match goal with
  | |- context [fetchDocuments net 1 500 ?s1] =>
      destruct (fetchDocuments_outcome net 1 500 s1) as (t & data & E & Hsnap & _);
      rewrite E
  end.
  destruct data as [|docs [pg|]]; simpl; unfold trace_of; simpl;
    rewrite ?snapshots_of_app; simpl; rewrite ?app_nil_r;
    (split;
     [ intros Hnil; apply app_eq_nil in Hnil as [_ Hnil]; discriminate
     | intros s' Hin; apply in_app_or in Hin as [Hin|[<-|[]]];
       [rewrite (Hsnap _ Hin)|]; auto ]).
Qed.

Lemma loadInitial_requests net s :
  requests_of (trace_of (loadInitialDocuments net s))
  = if truthy (selectedChatId s) then [documentsRequest s 1 500] else [].
Proof.
  unfold loadInitialDocuments. step.
  match goal with
  | |- context [fetchDocuments net 1 500 ?s1] =>
      destruct (fetchDocuments_outcome net 1 500 s1) as (t & data & E & _ & Hreq);
      rewrite E
  end.
  simpl in Hreq. unfold documentsRequest in *. simpl in Hreq.
  destruct data as [|docs [pg|]]; simpl; unfold trace_of; simpl;
    rewrite ?requests_of_app, Hreq; simpl; rewrite ?app_nil_r; reflexivity.
Qed.

Lemma loadMore_requests net s :
  isLoadingMore s = false -> hasMore s = true ->
  requests_of (trace_of (loadMoreDocuments net s))
  = if truthy (selectedChatId s)
    then [documentsRequest s (currentPage s + 1) 100] else [].
Proof.
  intros Hl Hm. unfold loadMoreDocuments. step. rewrite Hl, Hm. simpl.
  match goal with
  | |- context [fetchDocuments net ?p 100 ?s1] =>
      destruct (fetchDocuments_outcome net p 100 s1) as (t & data & E & _ & Hreq);
      rewrite E
  end.
  simpl in Hreq. unfold documentsRequest in *. simpl in Hreq.
  destruct data as [|[[|d ds]|] [pg|]]; simpl; unfold trace_of; simpl;
    rewrite ?requests_of_app, Hreq; simpl; rewrite ?app_nil_r; reflexivity.
Qed.

(** The state [loadInitialDocuments] ends in when the server answers with
    documents and a descriptor. *)
Lemma loadInitial_served net s r docs pg :
  truthy (selectedChatId s) = true ->
  documentsApi net (documentsRequest s 1 500) = Responds r ->
  ok r = true ->
  json r = Some (JsonObject (Some docs) (Some pg)) ->
  state_of (loadInitialDocuments net s)
  = {| documents := docs; isLoading := false; isLoadingMore := isLoadingMore s;
       error := None; currentPage := 1;
       hasMore := Pagination.currentPage pg <? Pagination.totalPages pg;
       totalLoaded := Z.of_nat (length docs); chats := chats s;
       selectedChatId := selectedChatId s |}
  /\ completion_of (loadInitialDocuments net s) = Normal tt.
Proof.
  intros Hsel Hreply Hok Hjson. unfold loadInitialDocuments. step.
  erewrite fetchDocuments_responds; [| exact Hsel | exact Hreply].
  rewrite Hok, Hjson. simpl. split; reflexivity.
Qed.

(** C6. [loadInitialDocuments]: every call raises [isLoading] and clears
    the error (that is the state shown while it is suspended), asks for
    page 1 with limit 500, which is more than the limit [loadMoreDocuments]
    asks with; when the server answers with documents and a descriptor the
    items are replaced by the documents, the page is 1 and [hasMore] is
    [currentPage < totalPages]. With 500 documents and the descriptor
    (1, 2, 600, 500): 500 items, page 1, [hasMore]. *)
Theorem loadInitial_success (net : Network) (s : State) :
  let result := loadInitialDocuments net s in
  (snapshots_of (trace_of result) <> []
   /\ forall s', In s' (snapshots_of (trace_of result)) ->
                 isLoading s' = true /\ error s' = None)
  /\ (truthy (selectedChatId s) = true ->
      requests_of (trace_of result) = [documentsRequest s 1 500]
      /\ forall s0, isLoadingMore s0 = false -> hasMore s0 = true ->
           selectedChatId s0 = selectedChatId s ->
           exists narrower,
             requests_of (trace_of (loadMoreDocuments net s0))
             = [documentsRequest s0 (currentPage s0 + 1) narrower]
             /\ narrower < 500)
  /\ (forall r docs pg,
      truthy (selectedChatId s) = true ->
      documentsApi net (documentsRequest s 1 500) = Responds r ->
      ok r = true ->
      json r = Some (JsonObject (Some docs) (Some pg)) ->
      documents (state_of result) = docs
      /\ currentPage (state_of result) = 1
      /\ hasMore (state_of result)
         = (Pagination.currentPage pg <? Pagination.totalPages pg)
      /\ isLoading (state_of result) = false
      /\ error (state_of result) = None
      /\ completion_of result = Normal tt
      /\ (length docs = 500%nat ->
          pg = {| Pagination.currentPage := 1; Pagination.totalPages := 2;
                  Pagination.totalItems := 600; Pagination.limit := 500 |} ->
          length (documents (state_of result)) = 500%nat
          /\ currentPage (state_of result) = 1
          /\ hasMore (state_of result) = true)).
Proof.
  intros result. split; [apply loadInitial_snapshots|]. split.
  - intros Hsel. subst result. rewrite loadInitial_requests, Hsel.
    split; [reflexivity|]. intros s0 Hl Hm Hs0. exists 100.
    rewrite (loadMore_requests _ _ Hl Hm), Hs0, Hsel. split; [reflexivity|lia].
  - intros r docs pg Hsel Hreply Hok Hjson. subst result.
    destruct (loadInitial_served _ _ _ _ _ Hsel Hreply Hok Hjson) as [-> ->].
    simpl. repeat split; try assumption. subst pg. reflexivity.
Qed.

Lemma loadInitial_success_witness :
  let s' := state_of (loadInitialDocuments (serving firstPage) loaded) in
  length (documents s') = 500%nat /\ currentPage s' = 1 /\ hasMore s' = true.
Proof.
  destruct (loadInitial_success (serving firstPage) loaded) as (_ & _ & Hserved).
  destruct (Hserved (mkResponse true 200 None (Some firstPage)) fiveHundred
              {| Pagination.currentPage := 1; Pagination.totalPages := 2;
                 Pagination.totalItems := 600; Pagination.limit := 500 |}
              eq_refl eq_refl eq_refl eq_refl)
    as (_ & _ & _ & _ & _ & _ & Hexample).
  apply Hexample; reflexivity.
Defined.

(** The state [loadMoreDocuments] ends in when the server answers with
    documents and a descriptor. *)
Lemma loadMore_served net s r docs pg :
  isLoadingMore s = false -> hasMore s = true ->
  truthy (selectedChatId s) = true ->
  documentsApi net (documentsRequest s (currentPage s + 1) 100) = Responds r ->
  ok r = true ->
  json r = Some (JsonObject (Some docs) (Some pg)) ->
  state_of (loadMoreDocuments net s)
  = match docs with
    | [] =>
        {| documents := documents s; isLoading := isLoading s;
           isLoadingMore := false; error := error s;
           currentPage := currentPage s; hasMore := false;
           totalLoaded := totalLoaded s; chats := chats s;
           selectedChatId := selectedChatId s |}
    | _ :: _ =>
        {| documents := documents s ++ docs; isLoading := isLoading s;
           isLoadingMore := false; error := error s;
           currentPage := currentPage s + 1;
           hasMore := Pagination.currentPage pg <? Pagination.totalPages pg;
           totalLoaded := totalLoaded s + Z.of_nat (length docs);
           chats := chats s; selectedChatId := selectedChatId s |}
    end.
Proof.
  intros Hl Hm Hsel Hreply Hok Hjson. unfold loadMoreDocuments. step.
  rewrite Hl, Hm. simpl.
  erewrite fetchDocuments_responds; [| exact Hsel | exact Hreply].
  rewrite Hok, Hjson. simpl. destruct docs; reflexivity.
Qed.

Lemma loadMore_blocked net s :
  isLoadingMore s = true \/ hasMore s = false ->
  loadMoreDocuments net s = (s, [], Normal tt).
Proof.
  intros H. unfold loadMoreDocuments. step.
  destruct H as [-> | ->]; [reflexivity|].
  rewrite orb_true_r. reflexivity.
Qed.

(** Past the guard, [loadMoreDocuments] is suspended at least once, with
    [isLoadingMore] raised. *)
Lemma loadMore_snapshots net s :
  isLoadingMore s = false -> hasMore s = true ->
  snapshots_of (trace_of (loadMoreDocuments net s)) <> []
  /\ forall s', In s' (snapshots_of (trace_of (loadMoreDocuments net s))) ->
                isLoadingMore s' = true.
Proof.
  intros Hl Hm. unfold loadMoreDocuments. step. rewrite Hl, Hm. simpl.
  match goal with
  | |- context [fetchDocuments net ?p 100 ?s1] =>
      destruct (fetchDocuments_outcome net p 100 s1) as (t & data & E & Hsnap & _);
      rewrite E
  end.
  destruct data as [|[[|d ds]|] [pg|]]; simpl; unfold trace_of; simpl;
    rewrite ?snapshots_of_app; simpl; rewrite ?app_nil_r;
    (split;
     [ intros Hnil; apply app_eq_nil in Hnil as [_ Hnil]; discriminate
     | intros s' Hin; apply in_app_or in Hin as [Hin|[<-|[]]];
       [rewrite (Hsnap _ Hin)|]; auto ]).
Qed.

(** C2. [loadMoreDocuments]: with [isLoadingMore] set or [hasMore] unset
    it does nothing (same state, empty trace). Otherwise it asks for page
    [currentPage + 1] with limit 100, less than the 500 of the initial
    load; when documents come back they are appended, the page moves on
    and [hasMore] is [currentPage < totalPages] of the descriptor; when
    none come back [hasMore] is dropped whatever the descriptor says, and
    items and page stay. *)
Theorem loadMore_contract (net : Network) (s : State) :
  let result := loadMoreDocuments net s in
  (isLoadingMore s = true \/ hasMore s = false -> result = (s, [], Normal tt))
  /\ (isLoadingMore s = false -> hasMore s = true ->
      truthy (selectedChatId s) = true ->
      (exists wide,
          requests_of (trace_of result) = [documentsRequest s (currentPage s + 1) 100]
          /\ requests_of (trace_of (loadInitialDocuments net s))
             = [documentsRequest s 1 wide]
          /\ 100 < wide)
      /\ forall r docs pg,
          documentsApi net (documentsRequest s (currentPage s + 1) 100) = Responds r ->
          ok r = true ->
          json r = Some (JsonObject (Some docs) (Some pg)) ->
          (docs <> [] ->
           documents (state_of result) = documents s ++ docs
           /\ currentPage (state_of result) = currentPage s + 1
           /\ hasMore (state_of result)
              = (Pagination.currentPage pg <? Pagination.totalPages pg)
           /\ isLoadingMore (state_of result) = false)
          /\ (docs = [] ->
              hasMore (state_of result) = false
              /\ documents (state_of result) = documents s
              /\ currentPage (state_of result) = currentPage s
              /\ isLoadingMore (state_of result) = false)).
Proof.
  intros result. split; [apply loadMore_blocked|].
  intros Hl Hm Hsel. split.
  - exists 500. subst result.
    rewrite (loadMore_requests _ _ Hl Hm), loadInitial_requests, Hsel.
    split; [reflexivity|]. split; [reflexivity|lia].
  - intros r docs pg Hreply Hok Hjson. subst result.
    rewrite (loadMore_served _ _ _ _ _ Hl Hm Hsel Hreply Hok Hjson).
    split; intros Hdocs.
    + destruct docs; [congruence|]. repeat split.
    + subst docs. repeat split.
Qed.

Lemma loadMore_contract_witness :
  hasMore (state_of (loadMoreDocuments (serving emptyPage) loaded)) = false
  /\ documents (state_of (loadMoreDocuments (serving emptyPage) loaded))
     = documents loaded
  /\ currentPage (state_of (loadMoreDocuments (serving emptyPage) loaded))
     = currentPage loaded
  /\ isLoadingMore (state_of (loadMoreDocuments (serving emptyPage) loaded)) = false.
Proof.
  destruct (loadMore_contract (serving emptyPage) loaded) as (_ & Hpast).
  destruct (Hpast eq_refl eq_refl eq_refl) as (_ & Hserved).
  destruct (Hserved (mkResponse true 200 None (Some emptyPage)) []
              {| Pagination.currentPage := 2; Pagination.totalPages := 5;
                 Pagination.totalItems := 450; Pagination.limit := 100 |}
              eq_refl eq_refl eq_refl) as (_ & Hempty).
  apply Hempty. reflexivity.
Defined.

(** Past the guard, the run of [loadMoreDocuments] starts with the run of
    the fetch client on the next page, limit 100. *)
Lemma loadMore_calls_client net s :
  isLoadingMore s = false -> hasMore s = true ->
  exists rest,
    trace_of (loadMoreDocuments net s)
    = trace_of (fetchDocuments net (currentPage s + 1) 100
                  (state_of (setIsLoadingMore true s)))
        ++ Suspended (state_of (setIsLoadingMore true s)) :: rest.
Proof.
  intros Hl Hm. unfold loadMoreDocuments. step.
  replace (isLoadingMore s || negb (hasMore s)) with false by (now rewrite Hl, Hm).
  unfold state_of, trace_of, setIsLoadingMore. simpl.
  match goal with
  | |- context [fetchDocuments net ?p 100 ?s1] =>
      destruct (fetchDocuments_outcome net p 100 s1) as (t & data & E & _);
      rewrite E
  end.
  destruct data as [|[[|d ds]|] [pg|]]; simpl; rewrite <- ?app_assoc; simpl;
    eexists; reflexivity.
Qed.

(** C10. A fresh loader has [hasMore] set, [isLoadingMore] unset and page
    1. So [loadMoreDocuments] called before anything was loaded passes the
    guard: it is not the no-op, it goes to the fetch client for page 2,
    and with a chat selected the request for page 2 leaves, although no
    item is loaded. (Straight after mount no chat is selected yet, and the
    fetch client answers the call for page 2 with its warning.) *)
Theorem fresh_loader_loadMore (net : Network) (s : State) :
  (hasMore initialState = true
   /\ isLoadingMore initialState = false
   /\ currentPage initialState = 1
   /\ documents initialState = [])
  /\ (documents s = [] -> isLoadingMore s = false -> hasMore s = true ->
      currentPage s = 1 ->
      loadMoreDocuments net s <> (s, [], Normal tt)
      /\ (exists rest,
             trace_of (loadMoreDocuments net s)
             = trace_of (fetchDocuments net 2 100 (state_of (setIsLoadingMore true s)))
                 ++ Suspended (state_of (setIsLoadingMore true s)) :: rest)
      /\ (truthy (selectedChatId s) = true ->
          requests_of (trace_of (loadMoreDocuments net s))
          = [documentsRequest s 2 100]))
  /\ trace_of (loadMoreDocuments net initialState)
     = [ConsoleWarn "[MemoryGraphDialog] No chat selected; skipping fetch.";
        Suspended (state_of (setIsLoadingMore true initialState))].
Proof.
  split; [repeat split|]. split; [|reflexivity].
  intros _ Hl Hm Hpage.
  destruct (loadMore_snapshots net s Hl Hm) as [Hsnap _].
  split; [|split].
  - intros E. apply Hsnap. rewrite E. reflexivity.
  - destruct (loadMore_calls_client net s Hl Hm) as (rest & Htrace).
    exists rest. rewrite Htrace, Hpage. reflexivity.
  - intros Hsel. rewrite (loadMore_requests _ _ Hl Hm), Hsel, Hpage. reflexivity.
Qed.

Lemma fresh_loader_loadMore_witness :
  requests_of (trace_of (loadMoreDocuments offline justSelected))
  = [PostDocuments 2 100 "createdAt" "desc" "c"].
Proof.
  destruct (fresh_loader_loadMore offline justSelected) as (_ & Hfresh & _).
  destruct (Hfresh eq_refl eq_refl eq_refl eq_refl) as (_ & _ & Hrequest).
  apply Hrequest. reflexivity.
Defined.

(** ** Failures and the item list *)

Lemma fetchDocuments_fails net page limit s :
  fetchFails net s page limit ->
  exists t, fetchDocuments net page limit s = (s, t, Normal (emptyResult limit)).
Proof.
  intros [Hsel [Hreply | (r & Hreply & Hok)]].
  - rewrite (fetchDocuments_rejects _ _ _ _ Hsel Hreply). eauto.
  - rewrite (fetchDocuments_responds _ _ _ _ _ Hsel Hreply), Hok. eauto.
Qed.

Lemma loadInitial_failed net s :
  fetchFails net s 1 500 ->
  state_of (loadInitialDocuments net s)
  = {| documents := []; isLoading := false; isLoadingMore := isLoadingMore s;
       error := None; currentPage := 1; hasMore := false; totalLoaded := 0;
       chats := chats s; selectedChatId := selectedChatId s |}
  /\ completion_of (loadInitialDocuments net s) = Normal tt.
Proof.
  intros Hfail. unfold loadInitialDocuments. step.
  match goal with
  | |- context [fetchDocuments net 1 500 ?s1] =>
      destruct (fetchDocuments_fails net 1 500 s1 Hfail) as (t & E); rewrite E
  end.
  simpl. split; reflexivity.
Qed.

(** What [loadInitialDocuments] leaves in [documents] and [error], by the
    data the fetch client hands it. *)
Lemma loadInitial_by_data net s :
  exists t data,
    fetchDocuments net 1 500 (state_of ((setIsLoading true ;; setError None) s))
    = (state_of ((setIsLoading true ;; setError None) s), t, Normal data)
    /\ documents (state_of (loadInitialDocuments net s))
       = match data with
         | JsonNull => documents s
         | JsonObject docs _ => default [] docs
         end
    /\ error (state_of (loadInitialDocuments net s))
       = match data with
         | JsonObject _ (Some _) => None
         | _ => Some TypeError
         end.
Proof.
  unfold loadInitialDocuments. step. unfold state_of at 1 2. simpl.
  match goal with
  | |- context [fetchDocuments net 1 500 ?s1] =>
      destruct (fetchDocuments_outcome net 1 500 s1) as (t & data & E & _);
      rewrite E
  end.
  exists t, data. split; [reflexivity|].
  destruct data as [|docs [pg|]]; simpl; split; reflexivity.
Qed.

(** C3, as the code has it. When the request of [loadInitialDocuments]
    fails (transport failure, or a status that is not a success) the fetch
    client hands back the empty result, so the loader finishes normally
    with no error recorded, not loading, and the items replaced by the
    empty list (page 1, [hasMore] unset). An error is recorded only when
    reading the body that came back throws: a successful response whose
    body is [null] or has no descriptor; with a [null] body the items are
    kept. *)
Theorem loadInitial_failure_handling (net : Network) (s : State) :
  let result := loadInitialDocuments net s in
  (fetchFails net s 1 500 ->
   error (state_of result) = None
   /\ documents (state_of result) = []
   /\ currentPage (state_of result) = 1
   /\ hasMore (state_of result) = false
   /\ isLoading (state_of result) = false
   /\ completion_of result = Normal tt)
  /\ (error (state_of result) <> None ->
      exists r,
        documentsApi net (documentsRequest s 1 500) = Responds r
        /\ ok r = true
        /\ (json r = Some JsonNull
            \/ exists docs, json r = Some (JsonObject docs None)))
  /\ (forall r,
      truthy (selectedChatId s) = true ->
      documentsApi net (documentsRequest s 1 500) = Responds r ->
      ok r = true ->
      json r = Some JsonNull ->
      error (state_of result) = Some TypeError
      /\ documents (state_of result) = documents s).
Proof.
  intros result. split; [|split].
  - intros Hfail. subst result.
    destruct (loadInitial_failed net s Hfail) as [-> ->]. simpl. auto 7.
  - subst result. unfold loadInitialDocuments. step.
    destruct (truthy (selectedChatId s)) eqn:Hsel.
    + destruct (documentsApi net (documentsRequest s 1 500)) as [|r] eqn:Hreply.
      * erewrite fetchDocuments_rejects; [| exact Hsel | exact Hreply].
        simpl. congruence.
      * erewrite fetchDocuments_responds; [| exact Hsel | exact Hreply].
        destruct (ok r) eqn:Hok; [|simpl; congruence].
        destruct (json r) as [[|docs [pg|]]|] eqn:Hjson; simpl; try congruence;
          intros _; exists r; eauto.
    + erewrite fetchDocuments_absent by exact Hsel. simpl. congruence.
  - intros r Hsel Hreply Hok Hjson. subst result.
    unfold loadInitialDocuments. step.
    erewrite fetchDocuments_responds; [| exact Hsel | exact Hreply].
    rewrite Hok, Hjson. simpl. auto.
Qed.

Lemma loadInitial_failure_handling_witness :
  let s' := state_of (loadInitialDocuments serverError loaded) in
  error s' = None /\ documents s' = [] /\ currentPage s' = 1
  /\ hasMore s' = false /\ isLoading s' = false
  /\ completion_of (loadInitialDocuments serverError loaded) = Normal tt.
Proof.
  apply (loadInitial_failure_handling serverError loaded).
  split; [reflexivity|]. right.
  exists (mkResponse false 500 (Some "oops"%string) None). split; reflexivity.
Defined.

(** C3 as stated does not hold: with two documents loaded and the network
    down, [loadInitialDocuments] records no error and empties the items. *)
Lemma loadInitial_failure_counterexample :
  let s' := state_of (loadInitialDocuments offline loaded) in
  fetchFails offline loaded 1 500
  /\ documents loaded = [doc1; doc2]
  /\ error s' = None
  /\ documents s' = []
  /\ ~ (error s' <> None /\ documents s' = documents loaded).
Proof.
  simpl. repeat split; auto.
  intros [Herr _]. apply Herr. reflexivity.
Qed.

(** [loadMoreDocuments] only ever appends. *)
Lemma loadMore_appends net s :
  exists appended,
    documents (state_of (loadMoreDocuments net s)) = documents s ++ appended.
Proof.
  unfold loadMoreDocuments. step.
  destruct (isLoadingMore s || negb (hasMore s)); simpl.
  - exists []. now rewrite app_nil_r.
  - match goal with
    | |- context [fetchDocuments net ?p 100 ?s1] =>
        destruct (fetchDocuments_outcome net p 100 s1) as (t & data & E & _);
        rewrite E
    end.
    destruct data as [|[[|d ds]|] [pg|]]; simpl;
      solve [ exists []; now rewrite app_nil_r | eexists; reflexivity ].
Qed.

Lemma run_loadMore_appends nets s :
  exists appended,
    documents (run (map LoadMore nets) s) = documents s ++ appended.
Proof.
  revert s. induction nets as [|net nets IH]; intros s; simpl.
  - exists []. now rewrite app_nil_r.
  - destruct (IH (state_of (loadMoreDocuments net s))) as (more & Hmore).
    destruct (loadMore_appends net s) as (first & Hfirst).
    exists (first ++ more). unfold run in *. simpl.
    rewrite Hmore, Hfirst, app_assoc. reflexivity.
Qed.

Lemma run_selection calls s :
  selectedChatId (run calls s) = selectedChatId s.
Proof.
  revert s. induction calls as [|c calls IH]; intros s; [reflexivity|].
  unfold run in *. simpl. rewrite IH. destruct c as [net|net]; simpl.
  - apply loadInitial_selection.
  - apply loadMore_selection.
Qed.

(** C4, as the code has it. No run of the two loaders changes the
    selection key. Across any number of [loadMoreDocuments] calls the
    items only grow: what was loaded stays, as a prefix, whatever the
    fetches produce. [loadInitialDocuments] replaces the items by the
    documents handed to it (none after a failed fetch) and keeps them only
    when the body is [null]; so it can shorten the list. *)
Theorem items_grow_under_loadMore (nets : list Network) (net : Network) (s : State) :
  (forall calls, selectedChatId (run calls s) = selectedChatId s)
  /\ (exists appended,
         documents (run (map LoadMore nets) s) = documents s ++ appended)
  /\ (length (documents s) <= length (documents (run (map LoadMore nets) s)))%nat
  /\ (exists t data,
         fetchDocuments net 1 500 (state_of ((setIsLoading true ;; setError None) s))
         = (state_of ((setIsLoading true ;; setError None) s), t, Normal data)
         /\ documents (run [LoadInitial net] s)
            = match data with
              | JsonNull => documents s
              | JsonObject docs _ => default [] docs
              end).
Proof.
  split; [intros calls; apply run_selection|].
  split; [apply run_loadMore_appends|]. split.
  - destruct (run_loadMore_appends nets s) as (appended & ->).
    rewrite length_app. lia.
  - destruct (loadInitial_by_data net s) as (t & data & E & Hdocs & _).
    exists t, data. split; [exact E | exact Hdocs].
Qed.

(** C4 as stated does not hold: one [loadInitialDocuments] call with the
    network down takes the items from two to none, under the same
    selection. *)
Lemma items_length_counterexample :
  let s' := run [LoadInitial offline] loaded in
  selectedChatId s' = selectedChatId loaded
  /\ length (documents loaded) = 2%nat
  /\ length (documents s') = 0%nat
  /\ ~ (length (documents loaded) <= length (documents s'))%nat.
Proof.
  simpl. repeat split; auto. lia.
Qed.

(** ** The selection source

    The facts of this part hold for every sort the runtime may have. *)

Arguments preferredId : simpl never.

Section Engine.
Context {engine : ArraySort}.

Lemma filterAndSort_perm l :
  Permutation (filterAndSort l) (List.filter notProfile l).
Proof.
  apply array_sort_permutes.
Qed.

Lemma filterAndSort_In l c :
  In c (filterAndSort l) <-> In c l /\ normalizedTitle c <> "profile"%string.
Proof.
  rewrite <- !list_elem_of_In, filterAndSort_perm, !list_elem_of_In.
  rewrite filter_In. unfold notProfile.
  destruct (String.eqb_spec (normalizedTitle c) "profile"); simpl; intuition congruence.
Qed.

Lemma filterAndSort_nil l :
  List.filter notProfile l = [] -> filterAndSort l = [].
Proof.
  intros Hnil. apply Permutation_nil. symmetry.
  rewrite <- Hnil. apply filterAndSort_perm.
Qed.

(** On chats whose timestamps all parse the comparator is the difference
    of two numbers, a consistent comparator. *)
Lemma compareChats_consistent l : allParse l -> consistentOn compareChats l.
Proof.
  unfold allParse. rewrite Forall_forall. intros Hparse a b c Ha Hb Hc.
  apply list_elem_of_In, Hparse in Ha, Hb, Hc.
  unfold unparsable in Ha, Hb, Hc. unfold compareChats.
  destruct (getTime (createdAt a)); [|discriminate].
  destruct (getTime (createdAt b)); [|discriminate].
  destruct (getTime (createdAt c)); [|discriminate].
  repeat split; lia.
Qed.

Lemma allParse_filtered l : allParse l -> allParse (List.filter notProfile l).
Proof.
  unfold allParse. rewrite !Forall_forall. intros Hparse x Hx.
  apply list_elem_of_In, filter_In in Hx as [Hx _].
  now apply Hparse, list_elem_of_In.
Qed.

Lemma filterAndSort_descending l :
  allParse (List.filter notProfile l) -> StronglySorted notOlder (filterAndSort l).
Proof.
  intros Hparse.
  pose proof (array_sort_orders compareChats _ (compareChats_consistent _ Hparse))
    as Hsorted.
  fold (filterAndSort l) in Hsorted.
  induction Hsorted as [|x m Hsorted IH Hx]; constructor; [exact IH|].
  eapply Forall_impl; [exact Hx|]. intros y Hy. simpl in Hy.
  unfold notOlder. unfold compareChats in Hy.
  destruct (getTime (createdAt x)), (getTime (createdAt y)); try exact I. lia.
Qed.

Lemma filter_none {A} (f : A -> bool) (l : list A) :
  (forall x, In x l -> f x = false) -> List.filter f l = [].
Proof.
  induction l as [|x l IH]; intros Hnone; [reflexivity|]. simpl.
  rewrite (Hnone x (or_introl eq_refl)). apply IH. intros y Hy. apply Hnone. now right.
Qed.

(** Chats of one creation time keep their order, when every timestamp
    parses. *)
Lemma filterAndSort_same_time l t :
  allParse (List.filter notProfile l) ->
  List.filter (createdAtTime t) (filterAndSort l)
  = List.filter (createdAtTime t) (List.filter notProfile l).
Proof.
  intros Hparse. set (kept := List.filter notProfile l) in *.
  assert (Hin : forall y, In y (filterAndSort l) <-> In y kept).
  { intros y. rewrite <- !list_elem_of_In. now rewrite filterAndSort_perm. }
  destruct (existsb (createdAtTime t) kept) eqn:Hsome.
  - apply existsb_exists in Hsome as (x & Hx & Hxt).
    assert (Hrank : forall y, In y kept ->
                              createdAtTime t y = sameRank compareChats x y).
    { intros y Hy. unfold allParse in Hparse. rewrite Forall_forall in Hparse.
      apply list_elem_of_In, Hparse in Hy. unfold unparsable in Hy.
      unfold createdAtTime, sameRank, compareChats in *.
      destruct (getTime (createdAt x)) as [tx|]; [|discriminate].
      destruct (getTime (createdAt y)) as [ty|]; [|discriminate].
      apply Z.eqb_eq in Hxt. subst tx.
      destruct (Z.eqb_spec ty t), (Z.eqb_spec (ty - t) 0); try reflexivity; lia. }
    rewrite (filter_ext_in _ _ _ Hrank).
    rewrite (filter_ext_in (createdAtTime t) (sameRank compareChats x) (filterAndSort l)).
    + apply array_sort_stable; [apply compareChats_consistent, Hparse | exact Hx].
    + intros y Hy. apply Hrank, Hin, Hy.
  - assert (Hnone : forall y, In y kept -> createdAtTime t y = false).
    { intros y Hy. destruct (createdAtTime t y) eqn:E; [|reflexivity].
      assert (existsb (createdAtTime t) kept = true)
        by (apply existsb_exists; eauto).
      congruence. }
    rewrite (filter_none _ kept Hnone). apply filter_none.
    intros y Hy. apply Hnone, Hin, Hy.
Qed.

Arguments filterAndSort : simpl never.

Lemma loadChats_absent net workspaceIdProp defaultChatId s :
  truthy workspaceIdProp = false ->
  loadWorkspaceAndChats net workspaceIdProp defaultChatId s = (s, [], Normal tt).
Proof.
  intros H. unfold loadWorkspaceAndChats. step. rewrite H. reflexivity.
Qed.

Lemma loadChats_served net workspaceIdProp defaultChatId s l :
  historyServed net workspaceIdProp l ->
  state_of (loadWorkspaceAndChats net workspaceIdProp defaultChatId s)
  = {| documents := documents s; isLoading := isLoading s;
       isLoadingMore := isLoadingMore s; error := error s;
       currentPage := currentPage s; hasMore := hasMore s;
       totalLoaded := totalLoaded s; chats := filterAndSort l;
       selectedChatId :=
         match filterAndSort l with
         | [] => selectedChatId s
         | first :: _ =>
             Some (default (id first) (preferredId defaultChatId (filterAndSort l)))
         end |}.
Proof.
  intros (Hws & r & Hreply & Hok & Hjson).
  unfold loadWorkspaceAndChats. step. rewrite Hws. simpl.
  rewrite Hreply. simpl. rewrite Hok. simpl. rewrite Hjson. simpl.
  destruct (filterAndSort l); reflexivity.
Qed.

Lemma preferredId_found defaultChatId d filtered :
  defaultChatId = Some d -> d <> ""%string ->
  (exists c, In c filtered /\ id c = d) ->
  preferredId defaultChatId filtered = Some d.
Proof.
  intros -> Hd (c & Hin & Hid). unfold preferredId. simpl.
  destruct (String.eqb_spec d ""); [contradiction|]. simpl.
  destruct (List.find (fun c0 => String.eqb (id c0) d) filtered) as [c'|] eqn:Hfind.
  - apply find_some in Hfind as [_ Heq]. apply String.eqb_eq in Heq.
    simpl. now rewrite Heq.
  - apply (find_none _ _ Hfind) in Hin. simpl in Hin.
    rewrite Hid, String.eqb_refl in Hin. discriminate.
Qed.

Lemma preferredId_missing defaultChatId filtered :
  truthy defaultChatId = false
  \/ (forall c, In c filtered -> Some (id c) <> defaultChatId) ->
  preferredId defaultChatId filtered = None.
Proof.
  unfold preferredId. intros [-> | Hnone]; [reflexivity|].
  destruct (truthy defaultChatId) eqn:Ht; [|reflexivity].
  destruct defaultChatId as [d|]; [|discriminate]. simpl.
  destruct (List.find (fun c0 => String.eqb (id c0) d) filtered) as [c'|] eqn:Hfind;
    [|reflexivity].
  apply find_some in Hfind as [Hin Heq]. apply String.eqb_eq in Heq.
  exfalso. apply (Hnone c' Hin). now rewrite Heq.
Qed.

Lemma dialogOpens_state net workspaceIdProp defaultChatId s :
  state_of (dialogOpens net workspaceIdProp defaultChatId s)
  = state_of (loadWorkspaceAndChats net workspaceIdProp defaultChatId
                (state_of (defaultChatEffect defaultChatId true s))).
Proof.
  unfold dialogOpens, loadChatsEffect, defaultChatEffect. step.
  destruct (truthy defaultChatId); unfold state_of; simpl;
    match goal with
    | |- context [loadWorkspaceAndChats ?n ?w ?d ?s1] =>
        destruct (loadWorkspaceAndChats n w d s1) as [[s2 t2] c2]
    end; reflexivity.
Qed.

(** C7, as the code has it, for every sort of the runtime. When the list
    of chats has been loaded: a caller-preferred id that occurs in the
    filtered list becomes the selection; with the preferred id missing from
    the list, or none given, the first entry of the list as the runtime
    sorted it becomes the selection, and that entry is the most recent one
    when all timestamps parse; with an empty filtered list the load leaves
    the selection as it was. So the selection stays unset only if it was
    unset: when the dialog opens with a preferred id, the open effect has
    set that id, and it stays. *)
Theorem selection_policy (net : Network) (workspaceIdProp defaultChatId : option string)
    (s : State) (l : list Chat) :
  historyServed net workspaceIdProp l ->
  let filtered := filterAndSort l in
  let afterLoad := state_of (loadWorkspaceAndChats net workspaceIdProp defaultChatId s) in
  let afterOpen := state_of (dialogOpens net workspaceIdProp defaultChatId s) in
  (chats afterLoad = filtered /\ chats afterOpen = filtered)
  /\ (forall d, defaultChatId = Some d -> d <> ""%string ->
                (exists c, In c filtered /\ id c = d) ->
                selectedChatId afterLoad = Some d /\ selectedChatId afterOpen = Some d)
  /\ (forall first rest,
         filtered = first :: rest ->
         truthy defaultChatId = false
         \/ (forall c, In c filtered -> Some (id c) <> defaultChatId) ->
         (selectedChatId afterLoad = Some (id first)
          /\ selectedChatId afterOpen = Some (id first))
         /\ (allParse l -> forall c, In c filtered -> notOlder first c))
  /\ (filtered = [] ->
      selectedChatId afterLoad = selectedChatId s
      /\ selectedChatId afterOpen
         = if truthy defaultChatId then defaultChatId else selectedChatId s).
Proof.
  intros Hserved filtered afterLoad afterOpen. subst afterLoad afterOpen.
  rewrite dialogOpens_state, !(loadChats_served _ _ _ _ _ Hserved). simpl.
  fold filtered. split; [split; reflexivity|]. split; [|split].
  - intros d Hd Hne Hin. rewrite (preferredId_found _ _ _ Hd Hne Hin).
    destruct filtered as [|first rest]; [|split; reflexivity].
    destruct Hin as (c & [] & _).
  - intros first rest Hfiltered Hmissing.
    rewrite (preferredId_missing _ _ Hmissing), Hfiltered. simpl.
    split; [split; reflexivity|].
    intros Hparse c Hin.
    assert (Hsorted : StronglySorted notOlder (first :: rest)).
    { rewrite <- Hfiltered. unfold filtered.
      apply filterAndSort_descending, allParse_filtered, Hparse. }
    destruct Hin as [<- | Hin].
    + unfold notOlder. destruct (getTime (createdAt first)); [lia|exact I].
    + apply StronglySorted_inv in Hsorted as [_ Hfirst].
      rewrite Forall_forall in Hfirst. now apply Hfirst, list_elem_of_In.
  - intros ->. split; [reflexivity|].
    unfold defaultChatEffect. step. destruct (truthy defaultChatId); reflexivity.
Qed.

End Engine.

Lemma historyServing_served l : historyServed (historyServing l) (Some "w"%string) l.
Proof.
  split; [reflexivity|].
  exists (mkResponse true 200 None (Some (HistoryChats l))). repeat split.
Defined.

Lemma selection_policy_witness :
  let s' := state_of (loadWorkspaceAndChats (historyServing [chatProfile; chatGeneral])
                        (Some "w"%string) None initialState) in
  chats s' = [chatGeneral] /\ selectedChatId s' = Some "b"%string.
Proof.
  destruct (selection_policy (historyServing [chatProfile; chatGeneral])
              (Some "w"%string) None initialState [chatProfile; chatGeneral]
              (historyServing_served _))
    as ((Hchats & _) & _ & Hfirst & _).
  destruct (Hfirst chatGeneral [] eq_refl (or_introl eq_refl)) as ((Hselected & _) & _).
  split; [exact Hchats | exact Hselected].
Defined.

(** C7 as stated does not hold for the empty list. A fresh dialog opens
    with the preferred id x while the workspace only has the reserved
    chat: the filtered list is empty, whatever the sort, and the selection
    is x, not unset. And a reload that finds the list empty keeps the chat
    selected before. *)
Lemma selection_policy_counterexample :
  let opened := state_of (dialogOpens (historyServing [chatProfile])
                            (Some "w"%string) (Some "x"%string) initialState) in
  let reloaded := state_of (loadWorkspaceAndChats (historyServing [chatProfile])
                              (Some "w"%string) None loaded) in
  selectedChatId initialState = None
  /\ List.filter notProfile [chatProfile] = []
  /\ filterAndSort [chatProfile] = []
  /\ chats opened = []
  /\ selectedChatId opened = Some "x"%string
  /\ selectedChatId opened <> None
  /\ selectedChatId reloaded = Some "c"%string.
Proof.
  simpl. repeat split. discriminate.
Qed.



End DialogFacts.

(** * More facts about the incremental loader *)

Module LoaderFacts.
Import MemoryGraph DialogTerms MoreTerms DialogFacts.
Local Open Scope Z_scope.

Arguments fetchDocuments : simpl never.

Ltac run_loader :=
  unfold mbind, M_bind, mret, M_ret, bind, ret, throw, try_catch, try_finally,
    await, emit, gets, setDocuments, setIsLoading, setIsLoadingMore, setError,
    setCurrentPage, setHasMore, setTotalLoaded, get_documents, descriptor_hasMore;
  simpl.

(** Whatever the fetch client hands back, by cases on its shape. *)
Ltac by_data net :=
  match goal with
  | |- context [fetchDocuments net ?p ?l ?s1] =>
      let t := fresh "t" in
      let data := fresh "data" in
      let E := fresh "E" in
      destruct (fetchDocuments_outcome net p l s1) as (t & data & E & _);
      rewrite E;
      destruct data as [|[[|?d ?ds]|] [?pg|]]; simpl
  end.

Lemma loadInitial_counted net s :
  counted s -> counted (state_of (loadInitialDocuments net s)).
Proof.
  unfold counted. intros Hs. unfold loadInitialDocuments. run_loader.
  by_data net; auto.
Qed.

Lemma loadMore_counted net s :
  counted s -> counted (state_of (loadMoreDocuments net s)).
Proof.
  unfold counted. intros Hs. unfold loadMoreDocuments. run_loader.
  destruct (isLoadingMore s || negb (hasMore s)); simpl; [exact Hs|].
  by_data net; auto;
    rewrite Hs, length_app; simpl length; lia.
Qed.

(** X1. [totalLoaded] stays the number of items: if it is so before, it is
    so after any sequence of [loadInitialDocuments] and
    [loadMoreDocuments] calls, whatever the fetches produce. *)
Theorem run_keeps_count (calls : list Call) (s : State) :
  counted s -> counted (run calls s).
Proof.
  revert s. induction calls as [|c calls IH]; intros s Hs; [exact Hs|].
  unfold run in *. simpl. apply IH. destruct c as [net|net]; simpl.
  - now apply loadInitial_counted.
  - now apply loadMore_counted.
Qed.

Lemma run_keeps_count_witness :
  counted (run [LoadInitial (serving firstPage); LoadMore offline;
                LoadInitial serverError] initialState).
Proof.
  apply (run_keeps_count _ initialState). reflexivity.
Defined.

(** X2. Neither loader ever throws, and neither leaves its flag raised:
    for every network and state [loadInitialDocuments] ends with
    [isLoading] unset, and [loadMoreDocuments] ends with [isLoadingMore] as
    it found it (unset whenever it passed the guard). *)
Theorem loaders_settle (net : Network) (s : State) :
  completion_of (loadInitialDocuments net s) = Normal tt
  /\ isLoading (state_of (loadInitialDocuments net s)) = false
  /\ isLoadingMore (state_of (loadInitialDocuments net s)) = isLoadingMore s
  /\ completion_of (loadMoreDocuments net s) = Normal tt
  /\ isLoadingMore (state_of (loadMoreDocuments net s)) = isLoadingMore s
  /\ isLoading (state_of (loadMoreDocuments net s)) = isLoading s.
Proof.
  split; [|split; [|split]].
  - unfold loadInitialDocuments. run_loader. by_data net; reflexivity.
  - unfold loadInitialDocuments. run_loader. by_data net; reflexivity.
  - unfold loadInitialDocuments. run_loader. by_data net; reflexivity.
  - unfold loadMoreDocuments. run_loader.
    destruct (isLoadingMore s) eqn:Hl; simpl; [auto|].
    destruct (hasMore s); simpl; [|auto].
    repeat split; by_data net; reflexivity.
Qed.

(** X3. [loadMoreDocuments] never records an error: whatever the network
    does, and even when the body that comes back cannot be read, the
    [error] field is as before. *)
Theorem loadMore_keeps_error (net : Network) (s : State) :
  error (state_of (loadMoreDocuments net s)) = error s.
Proof.
  unfold loadMoreDocuments. run_loader.
  destruct (isLoadingMore s || negb (hasMore s)); simpl; [reflexivity|].
  by_data net; reflexivity.
Qed.

(** X4. A page that fails ends the paging. When the request of
    [loadMoreDocuments] fails (transport failure, or a status that is not
    a success), items, page and error stay, but [hasMore] is dropped, and
    from then on every [loadMoreDocuments] call is a no-op, whatever the
    network would answer. *)
Theorem failed_page_ends_paging (net : Network) (s : State) :
  isLoadingMore s = false -> hasMore s = true ->
  fetchFails net s (currentPage s + 1) 100 ->
  let s' := state_of (loadMoreDocuments net s) in
  hasMore s' = false
  /\ documents s' = documents s
  /\ currentPage s' = currentPage s
  /\ error s' = error s
  /\ forall later, loadMoreDocuments later s' = (s', [], Normal tt).
Proof.
  intros Hl Hm Hfail s'.
  assert (Hs' : hasMore s' = false /\ documents s' = documents s
                /\ currentPage s' = currentPage s /\ error s' = error s).
  { subst s'. unfold loadMoreDocuments. run_loader. rewrite Hl, Hm. simpl.
    match goal with
    | |- context [fetchDocuments net ?p 100 ?s1] =>
        destruct (fetchDocuments_fails net p 100 s1) as (t & E);
        [exact Hfail | rewrite E]
    end.
    simpl. auto. }
  destruct Hs' as (Hmore & Hdocs & Hpage & Herr).
  repeat split; try assumption.
  intros later. apply loadMore_blocked. now right.
Qed.

Lemma failed_page_ends_paging_witness :
  let s' := state_of (loadMoreDocuments offline loaded) in
  hasMore s' = false
  /\ documents s' = documents loaded
  /\ currentPage s' = currentPage loaded
  /\ error s' = error loaded
  /\ forall later, loadMoreDocuments later s' = (s', [], Normal tt).
Proof.
  apply (failed_page_ends_paging offline loaded); try reflexivity.
  split; [reflexivity|]. left. reflexivity.
Defined.

(** X5. Without a selected chat both loaders stay off the network:
    [loadInitialDocuments] ends with no items, page 1, [hasMore] unset and
    no error; [loadMoreDocuments] keeps items and page, and drops [hasMore]
    unless the guard on [isLoadingMore] stopped it. *)
Theorem no_selection_no_request (net : Network) (s : State) :
  truthy (selectedChatId s) = false ->
  (requests_of (trace_of (loadInitialDocuments net s)) = []
   /\ documents (state_of (loadInitialDocuments net s)) = []
   /\ currentPage (state_of (loadInitialDocuments net s)) = 1
   /\ hasMore (state_of (loadInitialDocuments net s)) = false
   /\ error (state_of (loadInitialDocuments net s)) = None)
  /\ requests_of (trace_of (loadMoreDocuments net s)) = []
  /\ documents (state_of (loadMoreDocuments net s)) = documents s
  /\ currentPage (state_of (loadMoreDocuments net s)) = currentPage s
  /\ hasMore (state_of (loadMoreDocuments net s)) = isLoadingMore s && hasMore s.
Proof.
  intros Hsel. split.
  - unfold loadInitialDocuments. run_loader.
    erewrite fetchDocuments_absent by exact Hsel. simpl. repeat split.
  - unfold loadMoreDocuments. run_loader.
    destruct (isLoadingMore s) eqn:Hl; simpl; [repeat split|].
    destruct (hasMore s) eqn:Hm; simpl; [|repeat split; assumption].
    erewrite fetchDocuments_absent by exact Hsel. simpl. repeat split.
Qed.

Lemma no_selection_no_request_witness :
  requests_of (trace_of (loadInitialDocuments (serving firstPage) initialState)) = []
  /\ hasMore (state_of (loadInitialDocuments (serving firstPage) initialState)) = false
  /\ hasMore (state_of (loadMoreDocuments (serving firstPage) initialState)) = false.
Proof.
  destruct (no_selection_no_request (serving firstPage) initialState eq_refl)
    as ((Hreq & _ & _ & Hmore & _) & _ & _ & _ & Hmore').
  split; [exact Hreq|]. split; [exact Hmore | exact Hmore'].
Defined.

(** X6. An initial load followed by a next page. When the first call is
    served documents [docs0] with a descriptor that has more pages, and the
    second is served a non-empty [docs1], the items are [docs0 ++ docs1],
    the page is 2, [totalLoaded] is the sum of the lengths and [hasMore]
    follows the second descriptor. *)
Theorem initial_then_more (net0 net1 : Network) (s : State)
    (r0 r1 : HttpResponse DocumentsJson) (docs0 docs1 : list DocumentWithMemories)
    (pg0 pg1 : Pagination.t) :
  truthy (selectedChatId s) = true ->
  isLoadingMore s = false ->
  documentsApi net0 (documentsRequest s 1 500) = Responds r0 ->
  ok r0 = true -> json r0 = Some (JsonObject (Some docs0) (Some pg0)) ->
  Pagination.currentPage pg0 < Pagination.totalPages pg0 ->
  documentsApi net1 (documentsRequest s 2 100) = Responds r1 ->
  ok r1 = true -> json r1 = Some (JsonObject (Some docs1) (Some pg1)) ->
  docs1 <> [] ->
  let s' := run [LoadInitial net0; LoadMore net1] s in
  documents s' = docs0 ++ docs1
  /\ currentPage s' = 2
  /\ totalLoaded s' = Z.of_nat (length docs0) + Z.of_nat (length docs1)
  /\ hasMore s' = (Pagination.currentPage pg1 <? Pagination.totalPages pg1)
  /\ isLoading s' = false /\ isLoadingMore s' = false /\ error s' = None.
Proof.
  intros Hsel Hl Hreply0 Hok0 Hjson0 Hmore Hreply1 Hok1 Hjson1 Hdocs1 s'.
  subst s'. unfold run. simpl.
  destruct (loadInitial_served _ _ _ _ _ Hsel Hreply0 Hok0 Hjson0) as [-> _].
  erewrite loadMore_served;
    [ | exact Hl | simpl; now apply Z.ltb_lt | exact Hsel | exact Hreply1
      | exact Hok1 | exact Hjson1 ].
  destruct docs1; [congruence|]. simpl. repeat split.
Qed.

Lemma initial_then_more_witness :
  let s' := run [LoadInitial (serving firstPage); LoadMore (serving lastPage)] loaded in
  length (documents s') = 600%nat /\ currentPage s' = 2 /\ hasMore s' = false.
Proof.
  destruct (initial_then_more (serving firstPage) (serving lastPage) loaded
              (mkResponse true 200 None (Some firstPage))
              (mkResponse true 200 None (Some lastPage))
              fiveHundred oneHundred
              {| Pagination.currentPage := 1; Pagination.totalPages := 2;
                 Pagination.totalItems := 600; Pagination.limit := 500 |}
              {| Pagination.currentPage := 2; Pagination.totalPages := 2;
                 Pagination.totalItems := 600; Pagination.limit := 100 |}
              eq_refl eq_refl eq_refl eq_refl eq_refl eq_refl eq_refl eq_refl eq_refl)
    as (Hdocs & Hpage & _ & Hmore & _).
  { discriminate. }
  split; [rewrite Hdocs; reflexivity|]. split; [exact Hpage | exact Hmore].
Defined.

(** X7. Page and items move together. One [loadMoreDocuments] call either
    leaves both alone, or appends at least one document and raises the page
    by exactly one. So in any run that starts at a page of at least 1 the
    page never falls below 1. *)
Theorem page_follows_items (net : Network) (calls : list Call) (s : State) :
  ((currentPage (state_of (loadMoreDocuments net s)) = currentPage s
    /\ documents (state_of (loadMoreDocuments net s)) = documents s)
   \/ (currentPage (state_of (loadMoreDocuments net s)) = currentPage s + 1
       /\ exists d ds,
           documents (state_of (loadMoreDocuments net s)) = documents s ++ d :: ds))
  /\ (1 <= currentPage s -> 1 <= currentPage (run calls s)).
Proof.
  split.
  - unfold loadMoreDocuments. run_loader.
    destruct (isLoadingMore s || negb (hasMore s)); simpl; [auto|].
    by_data net; eauto.
  - revert s. induction calls as [|c calls IH]; intros s Hs; [exact Hs|].
    unfold run in *. simpl. apply IH. destruct c as [net'|net']; simpl.
    + unfold loadInitialDocuments. run_loader. by_data net'; auto; lia.
    + unfold loadMoreDocuments. run_loader.
      destruct (isLoadingMore s || negb (hasMore s)); simpl; [exact Hs|].
      by_data net'; auto; lia.
Qed.

Lemma page_follows_items_witness :
  1 <= currentPage (run [LoadMore (serving lastPage); LoadInitial offline;
                         LoadMore (serving firstPage)] loaded).
Proof.
  apply (page_follows_items offline _ loaded). reflexivity.
Defined.

End LoaderFacts.

(** * More facts about the selection source *)

Module SelectionFacts.
Import MemoryGraph DialogTerms MoreTerms DialogFacts.
Local Open Scope Z_scope.

Arguments filterAndSort : simpl never.
Arguments preferredId : simpl never.

(** The facts of this module hold for every sort the runtime may have. *)

Ltac run_load :=
  unfold loadWorkspaceAndChats, mbind, M_bind, mret, M_ret, bind, ret, throw,
    try_catch, await, emit, fetch, responseJson, setChats, setSelectedChatId;
  simpl.

Section Engine.
Context {engine : ArraySort}.

(** X8. [loadWorkspaceAndChats] never throws and writes nothing but the
    list of chats and the selection: for every network and every pair of
    props, the items, the page, [hasMore], both loading flags, the error
    and [totalLoaded] are as before. *)
Theorem loadChats_frame (net : Network) (workspaceIdProp defaultChatId : option string)
    (s : State) :
  let result := loadWorkspaceAndChats net workspaceIdProp defaultChatId s in
  completion_of result = Normal tt
  /\ documents (state_of result) = documents s
  /\ currentPage (state_of result) = currentPage s
  /\ hasMore (state_of result) = hasMore s
  /\ isLoading (state_of result) = isLoading s
  /\ isLoadingMore (state_of result) = isLoadingMore s
  /\ error (state_of result) = error s
  /\ totalLoaded (state_of result) = totalLoaded s.
Proof.
  run_load. destruct (truthy workspaceIdProp); simpl; [|repeat split].
  destruct (historyApi net _) as [|r]; simpl; [repeat split|].
  destruct (ok r); simpl; [|repeat split].
  destruct (json r) as [[|l]|]; simpl; [| |repeat split].
  - destruct (filterAndSort []); repeat split.
  - destruct (filterAndSort l); repeat split.
Qed.

(** X9. A load that fails keeps what was there. When the history request
    is rejected, answered with a status that is not a success, or answered
    with a body that does not parse, the state is left exactly as it was
    (the rejection and the parse failure are logged, the bad status is
    not). A success whose body holds no array of chats is different: it
    empties the list, and leaves the selection. *)
Theorem failed_load_keeps_chats (net : Network)
    (workspaceIdProp defaultChatId : option string) (s : State) :
  truthy workspaceIdProp = true ->
  let request := GetHistory (default ""%string workspaceIdProp) 100 in
  let result := loadWorkspaceAndChats net workspaceIdProp defaultChatId s in
  (historyApi net request = Rejects ->
   result = (s, [Fetch request; Suspended s;
                 ConsoleError "[MemoryGraphDialog] Failed to load workspace and chats:"],
             Normal tt))
  /\ (forall r, historyApi net request = Responds r -> ok r = false ->
                result = (s, [Fetch request; Suspended s], Normal tt))
  /\ (forall r, historyApi net request = Responds r -> ok r = true ->
                json r = None ->
                result = (s, [Fetch request; Suspended s; Suspended s;
                              ConsoleError "[MemoryGraphDialog] Failed to load workspace and chats:"],
                          Normal tt))
  /\ (forall r, historyApi net request = Responds r -> ok r = true ->
                json r = Some HistoryOther ->
                chats (state_of result) = []
                /\ selectedChatId (state_of result) = selectedChatId s).
Proof.
  intros Hws request result. subst request result.
  split; [|split; [|split]].
  - intros Hreply. run_load. rewrite Hws. simpl. rewrite Hreply. reflexivity.
  - intros r Hreply Hok. run_load. rewrite Hws. simpl. rewrite Hreply. simpl.
    rewrite Hok. reflexivity.
  - intros r Hreply Hok Hjson. run_load. rewrite Hws. simpl. rewrite Hreply. simpl.
    rewrite Hok. simpl. rewrite Hjson. reflexivity.
  - intros r Hreply Hok Hjson. run_load. rewrite Hws. simpl. rewrite Hreply. simpl.
    rewrite Hok. simpl. rewrite Hjson. simpl.
    rewrite (filterAndSort_nil [] eq_refl). split; reflexivity.
Qed.

Lemma preferredId_listed defaultChatId filtered d :
  preferredId defaultChatId filtered = Some d ->
  exists c, In c filtered /\ id c = d.
Proof.
  unfold preferredId. destruct (truthy defaultChatId); [|discriminate].
  destruct (List.find _ filtered) as [c|] eqn:Hfind; [|discriminate].
  simpl. intros [= <-]. apply find_some in Hfind as [Hin _]. eauto.
Qed.

(** X10. The selection a load makes is always listed: when the history is
    served and the filtered list is not empty, the selected id is the id of
    one of the chats now stored, for every preferred id and every previous
    selection. *)
Theorem selection_is_listed (net : Network)
    (workspaceIdProp defaultChatId : option string) (s : State) (l : list Chat) :
  historyServed net workspaceIdProp l ->
  filterAndSort l <> [] ->
  let s' := state_of (loadWorkspaceAndChats net workspaceIdProp defaultChatId s) in
  exists c, In c (chats s') /\ selectedChatId s' = Some (id c).
Proof.
  intros Hserved Hne s'. subst s'. rewrite (loadChats_served _ _ _ _ _ Hserved).
  simpl. destruct (filterAndSort l) as [|first rest] eqn:Hfiltered; [congruence|].
  destruct (preferredId defaultChatId (first :: rest)) as [d|] eqn:Hpref; simpl.
  - destruct (preferredId_listed _ _ _ Hpref) as (c & Hin & <-). eauto.
  - exists first. split; [now left | reflexivity].
Qed.

(** ** Sorting again *)

Lemma filter_all_kept {A} (f : A -> bool) l :
  Forall (fun x => f x = true) l -> List.filter f l = l.
Proof.
  induction 1 as [|x l Hx _ IH]; simpl; [reflexivity|].
  now rewrite Hx, IH.
Qed.

(** X11. When every timestamp parses, filtering and sorting a list that
    already went through it changes nothing, whatever the sort of the
    runtime: a reload that is served the list it stored stores it again in
    the same order. *)
Theorem filterAndSort_idempotent (l : list Chat) :
  allParse (List.filter notProfile l) ->
  filterAndSort (filterAndSort l) = filterAndSort l.
Proof.
  intros Hparse.
  assert (Hkept : List.filter notProfile (filterAndSort l) = filterAndSort l).
  { apply filter_all_kept. rewrite Forall_forall. intros c Hc.
    apply list_elem_of_In, filterAndSort_In in Hc as [_ Hc].
    unfold notProfile. now apply negb_true_iff, String.eqb_neq. }
  assert (Hparse' : allParse (filterAndSort l)).
  { unfold allParse in *. now rewrite filterAndSort_perm. }
  pose proof (compareChats_consistent _ Hparse) as Hcons.
  pose proof (compareChats_consistent _ Hparse') as Hcons'.
  unfold filterAndSort at 1. rewrite Hkept.
  apply (SortFacts.sorted_stable_unique compareChats).
  - exact Hcons'.
  - apply array_sort_permutes.
  - now apply array_sort_orders.
  - now apply (array_sort_orders compareChats (List.filter notProfile l)).
  - intros x Hx. now apply array_sort_stable.
Qed.

(** ** Titles *)

Lemma trimStart_white pre s :
  allWhiteSpace pre = true -> trimStart (pre +:+ s) = trimStart s.
Proof.
  induction pre as [|c pre IH]; simpl; [reflexivity|].
  intros H. apply andb_true_iff in H as [Hc Hpre]. rewrite Hc. now apply IH.
Qed.

Lemma trimStart_all_white s : allWhiteSpace s = true -> trimStart s = ""%string.
Proof.
  induction s as [|c s IH]; simpl; [reflexivity|].
  intros H. apply andb_true_iff in H as [Hc Hs]. rewrite Hc. now apply IH.
Qed.

Lemma trimEnd_all_white s : allWhiteSpace s = true -> trimEnd s = ""%string.
Proof.
  induction s as [|c s IH]; simpl; [reflexivity|].
  intros H. apply andb_true_iff in H as [Hc Hs]. rewrite (IH Hs), Hc. reflexivity.
Qed.

Lemma trimEnd_core core post :
  noWhiteSpace core = true -> allWhiteSpace post = true ->
  trimEnd (core +:+ post) = core.
Proof.
  intros Hcore Hpost. induction core as [|c core IH]; simpl.
  - now apply trimEnd_all_white.
  - simpl in Hcore. apply andb_true_iff in Hcore as [Hc Hcore].
    rewrite (IH Hcore). apply negb_true_iff in Hc. rewrite Hc.
    destruct core; reflexivity.
Qed.

Lemma trim_core pre core post :
  allWhiteSpace pre = true -> noWhiteSpace core = true ->
  allWhiteSpace post = true ->
  trim (pre +:+ core +:+ post) = core.
Proof.
  intros Hpre Hcore Hpost. unfold trim. rewrite (trimStart_white _ _ Hpre).
  destruct core as [|c core].
  - change (""%string +:+ post) with post.
    rewrite (trimStart_all_white _ Hpost). reflexivity.
  - assert (Hc : isWhiteSpace c = false).
    { simpl in Hcore. apply andb_true_iff in Hcore as [Hc _].
      now apply negb_true_iff in Hc. }
    change (trimStart (String c core +:+ post))
      with (if isWhiteSpace c then trimStart (core +:+ post)
            else (String c core +:+ post)).
    rewrite Hc. now apply trimEnd_core.
Qed.

(** X12. The reserved name is matched whatever the case and whatever
    white space surrounds it. For a chat whose title is a word without
    white space between two runs of white space, the chat is kept by the
    selection source exactly when the word, lower-cased, is not
    "profile". *)
Theorem reserved_title_insensitive (l : list Chat) (c : Chat) (pre core post : string) :
  title c = Some (pre +:+ core +:+ post) ->
  allWhiteSpace pre = true -> noWhiteSpace core = true ->
  allWhiteSpace post = true ->
  normalizedTitle c = toLowerCase core
  /\ (In c (filterAndSort l) <-> In c l /\ toLowerCase core <> "profile"%string).
Proof.
  intros Htitle Hpre Hcore Hpost.
  assert (Hnorm : normalizedTitle c = toLowerCase core).
  { unfold normalizedTitle. rewrite Htitle. simpl.
    now rewrite (trim_core _ _ _ Hpre Hcore Hpost). }
  split; [exact Hnorm|]. rewrite filterAndSort_In, Hnorm. reflexivity.
Qed.
End Engine.

Lemma failed_load_keeps_chats_witness :
  loadWorkspaceAndChats offline (Some "w"%string) (Some "x"%string) loaded
  = (loaded, [Fetch (GetHistory "w" 100); Suspended loaded;
              ConsoleError "[MemoryGraphDialog] Failed to load workspace and chats:"],
     Normal tt).
Proof.
  apply (failed_load_keeps_chats offline (Some "w"%string) (Some "x"%string) loaded);
    reflexivity.
Defined.

Lemma selection_is_listed_witness :
  let s' := state_of (loadWorkspaceAndChats
                        (historyServing [chatOlder; chatProfile; chatGeneral])
                        (Some "w"%string) (Some "a"%string) loaded) in
  exists c, In c (chats s') /\ selectedChatId s' = Some (id c).
Proof.
  apply (selection_is_listed (historyServing [chatOlder; chatProfile; chatGeneral])
           (Some "w"%string) (Some "a"%string) loaded
           [chatOlder; chatProfile; chatGeneral]).
  - apply historyServing_served.
  - discriminate.
Defined.

Lemma filterAndSort_idempotent_witness :
  filterAndSort (filterAndSort [chatOlder; chatProfile; chatGeneral])
  = [chatGeneral; chatOlder].
Proof.
  exact (filterAndSort_idempotent [chatOlder; chatProfile; chatGeneral]
           ltac:(repeat constructor)).
Defined.

Lemma reserved_title_insensitive_witness :
  ~ In shoutedProfile (filterAndSort [chatOlder; shoutedProfile; chatGeneral]).
Proof.
  intros Hin.
  destruct (reserved_title_insensitive [chatOlder; shoutedProfile; chatGeneral]
              shoutedProfile "  " "PROfile" (String "009" " ")
              eq_refl eq_refl eq_refl eq_refl) as [_ Hiff].
  apply Hiff in Hin as [_ Hne]. apply Hne. reflexivity.
Defined.

End SelectionFacts.

(** * More facts about the visibility hook *)

Module VisibilityMore.
Import ChatVisibility.

(** X13. A write shows through a read only when no history is cached.
    After [setVisibilityType] the hook reads back the new value if the
    cache holds no history list; if it holds one, the read is what it was
    before the write, for the history list is untouched. *)
Theorem write_then_read (chatId : string) (initial : VisibilityType)
    (workspaceIdProp : option string) (v : VisibilityType)
    (cache : Cache) (env : Browser) :
  let cache' := fst (setVisibilityType chatId workspaceIdProp v cache env) in
  historyData cache' = historyData cache
  /\ visibilityType chatId initial cache'
     = match historyData cache with
       | Some _ => visibilityType chatId initial cache
       | None => v
       end.
Proof.
  unfold setVisibilityType, visibilityType, history, localVisibility. simpl.
  split; [reflexivity|].
  destruct (historyData cache); [reflexivity|].
  now rewrite lookup_insert_eq.
Qed.

(** X14. A write for one chat leaves the others alone, and the last write
    wins: after setting [chatId], the local value and the resolved
    visibility of every other chat id are unchanged, and a second write for
    [chatId] leaves the cache as if it had been the only one. *)
Theorem write_is_local (chatId other : string) (initial : VisibilityType)
    (workspaceIdProp : option string) (v w : VisibilityType)
    (cache : Cache) (env : Browser) :
  let cache1 := fst (setVisibilityType chatId workspaceIdProp v cache env) in
  let cache2 := fst (setVisibilityType chatId workspaceIdProp w cache1 env) in
  (other <> chatId ->
   localVisibility other initial cache1 = localVisibility other initial cache
   /\ visibilityType other initial cache1 = visibilityType other initial cache)
  /\ cache2 = fst (setVisibilityType chatId workspaceIdProp w cache env).
Proof.
  unfold setVisibilityType, visibilityType, history, localVisibility,
    setLocalVisibility. simpl. split.
  - intros Hne. rewrite lookup_insert_ne by congruence. split; reflexivity.
  - now rewrite insert_insert_eq.
Qed.

Lemma write_is_local_witness :
  let cache := mkCache None {["c2"%string := public]} in
  let cache1 := fst (setVisibilityType "c1" None private cache (mkBrowser true None)) in
  localVisibility "c2" private cache1 = localVisibility "c2" private cache
  /\ visibilityType "c2" private cache1 = visibilityType "c2" private cache.
Proof.
  apply (write_is_local "c1" "c2" private None private private
           (mkCache None {["c2"%string := public]}) (mkBrowser true None)).
  discriminate.
Defined.

End VisibilityMore.

(** * Facts about the members route *)

Module MembersFacts.
Import MembersRoute.

Section Facts.
Variable Member : Type.
Implicit Type world : World Member.

(** X15. The route hands out a list of members only to a signed-in user
    who is a member of that workspace: a JSON answer means that [auth()]
    gave a session with a user, that the membership query for this user and
    the workspace of the path found a row, and the list is the one the
    listing query returned for that same workspace. *)
Theorem members_only_for_members world (t : list Event) (members : list Member) :
  GET world = (t, Some (JsonMembers members)) ->
  exists session sessionUser workspaceId row,
    auth world = Resolves (Some session)
    /\ user session = Some sessionUser
    /\ params world = Resolves workspaceId
    /\ getWorkspaceMember world workspaceId (userId sessionUser) = Resolves (Some row)
    /\ getWorkspaceMembers world workspaceId = Resolves members
    /\ t = [GetWorkspaceMember workspaceId (userId sessionUser);
            GetWorkspaceMembers workspaceId].
Proof.
  unfold GET. intros H.
  destruct (auth world) as [[session|]|]; simpl in H; try discriminate.
  destruct (user session) as [sessionUser|] eqn:Huser; simpl in H; try discriminate.
  destruct (params world) as [workspaceId|]; try discriminate.
  destruct (getWorkspaceMember world workspaceId (userId sessionUser))
    as [[row|]|] eqn:Hrow; try discriminate.
  destruct (getWorkspaceMembers world workspaceId) as [listed|] eqn:Hlist;
    try discriminate.
  injection H as <- <-. exists session, sessionUser, workspaceId, row. auto 7.
Qed.

(** X16. No query without a user, no listing without membership: when the
    session has no user the database is not touched at all, and the listing
    query is made only after the membership query for the session's own
    user and the same workspace found a row. *)
Theorem queries_are_gated world :
  (forall session, auth world = Resolves session -> session ≫= user = None ->
                   GET world = ([], Some (ErrorResponse "unauthorized:workspace" None)))
  /\ (forall workspaceId,
         In (GetWorkspaceMembers workspaceId) (fst (GET world)) ->
         exists session sessionUser row,
           auth world = Resolves (Some session)
           /\ user session = Some sessionUser
           /\ params world = Resolves workspaceId
           /\ getWorkspaceMember world workspaceId (userId sessionUser)
              = Resolves (Some row)).
Proof.
  split.
  - intros session Hauth Huser. unfold GET. rewrite Hauth, Huser. reflexivity.
  - intros workspaceId. unfold GET.
    destruct (auth world) as [[session|]|]; simpl; try tauto.
    destruct (user session) as [sessionUser|] eqn:Huser; simpl; try tauto.
    destruct (params world) as [ws|]; simpl; try tauto.
    destruct (getWorkspaceMember world ws (userId sessionUser))
      as [[row|]|] eqn:Hrow; simpl.
    + destruct (getWorkspaceMembers world ws); simpl;
        (intros [H|[H|H]];
         [ discriminate
         | injection H as <-; exists session, sessionUser, row; auto
         | try destruct H as [H|[]]; try discriminate; try contradiction ]).
    + intros [H|[]]. discriminate.
    + intros [H|[H|[]]]; discriminate.
Qed.

(** X17. A failing query never escapes: when either query rejects, the
    answer is the bad_request:database error and the failure is logged.
    The handler itself rejects only when [auth()] rejects, or when the
    user is signed in and [params] rejects. *)
Theorem database_errors_are_answered world :
  (forall session sessionUser workspaceId,
      auth world = Resolves (Some session) -> user session = Some sessionUser ->
      params world = Resolves workspaceId ->
      getWorkspaceMember world workspaceId (userId sessionUser) = Rejects
      \/ (exists row, getWorkspaceMember world workspaceId (userId sessionUser)
                      = Resolves (Some row))
         /\ getWorkspaceMembers world workspaceId = Rejects ->
      snd (GET world) = Some databaseError
      /\ In (ConsoleError "[Workspace Members API] Failed to fetch members")
            (fst (GET world)))
  /\ (snd (GET world) = None <->
      auth world = Rejects
      \/ exists session sessionUser,
           auth world = Resolves (Some session) /\ user session = Some sessionUser
           /\ params world = Rejects).
Proof.
  split.
  - intros session sessionUser workspaceId Hauth Huser Hparams Hfail.
    unfold GET. rewrite Hauth. simpl. rewrite Huser, Hparams.
    destruct Hfail as [-> | [(row & ->) ->]]; simpl; auto.
  - unfold GET. split.
    + destruct (auth world) as [[session|]|]; simpl; auto; try discriminate.
      destruct (user session) as [sessionUser|] eqn:Huser; simpl; try discriminate.
      destruct (params world) as [ws|] eqn:Hparams; simpl; [|eauto 6].
      destruct (getWorkspaceMember world ws (userId sessionUser)) as [[row|]|];
        try discriminate.
      destruct (getWorkspaceMembers world ws); discriminate.
    + intros [-> | (session & sessionUser & -> & Huser & Hparams)]; [reflexivity|].
      simpl. rewrite Huser, Hparams. reflexivity.
Qed.
End Facts.

Lemma members_only_for_members_witness :
  exists session sessionUser workspaceId row,
    auth sampleWorld = Resolves (Some session)
    /\ user session = Some sessionUser
    /\ params sampleWorld = Resolves workspaceId
    /\ getWorkspaceMember sampleWorld workspaceId (userId sessionUser)
       = Resolves (Some row)
    /\ getWorkspaceMembers sampleWorld workspaceId = Resolves ["ann"; "bob"]%string
    /\ [GetWorkspaceMember "w1" "u1"; GetWorkspaceMembers "w1"]
       = [GetWorkspaceMember workspaceId (userId sessionUser);
          GetWorkspaceMembers workspaceId].
Proof.
  apply (members_only_for_members string sampleWorld
           [GetWorkspaceMember "w1" "u1"; GetWorkspaceMembers "w1"]
           ["ann"; "bob"]%string).
  reflexivity.
Defined.

Lemma queries_are_gated_witness :
  GET signedOut = ([], Some (ErrorResponse "unauthorized:workspace" None)).
Proof.
  apply (queries_are_gated string signedOut) with (session := None); reflexivity.
Defined.

Lemma database_errors_are_answered_witness :
  snd (GET brokenListing) = Some databaseError
  /\ In (ConsoleError "[Workspace Members API] Failed to fetch members")
        (fst (GET brokenListing)).
Proof.
  apply (database_errors_are_answered string brokenListing)
    with (session := mkSession (Some (mkUser "u1"))) (sessionUser := mkUser "u1")
         (workspaceId := "w1"%string); try reflexivity.
  right. split; [exists "ann"%string|]; reflexivity.
Defined.

End MembersFacts.

(** * Facts about the login page *)

Module LoginFacts.
Import LoginPage.

Lemma navigations_app t1 t2 : navigations (t1 ++ t2) = navigations t1 ++ navigations t2.
Proof. apply flat_map_app. Qed.

Lemma prefix_append p t : String.prefix p (p +:+ t) = true.
Proof.
  induction p as [|c p IH].
  - change (""%string +:+ t) with t. destruct t; reflexivity.
  - change (String c p +:+ t) with (String c (p +:+ t)). simpl.
    destruct (ascii_dec c c); [exact IH | contradiction].
Qed.

Lemma dropChars_append p t : dropChars (String.length p) (p +:+ t) = t.
Proof.
  induction p as [|c p IH]; [reflexivity|].
  change (String c p +:+ t) with (String c (p +:+ t)). exact IH.
Qed.

(** Replacing a prefix by nothing leaves what follows it. *)
Lemma replaceFirst_prefix p t : replaceFirst p "" (p +:+ t) = t.
Proof.
  assert (H : forall s, String.prefix p s = true ->
                        replaceFirst p "" s = dropChars (String.length p) s).
  { intros s Hs. destruct s; cbn [replaceFirst]; rewrite Hs; reflexivity. }
  rewrite (H _ (prefix_append p t)). apply dropChars_append.
Qed.

Ltac run_page :=
  unfold acceptInvitation, fetchAccept, catching, memberOf, perform, raise,
    mbind, Act_bind, mret, Act_ret; simpl.

(** Accepting an invitation ends in one navigation whatever the endpoint
    does, to the workspace or back to the invitation. *)
Lemma acceptInvitation_navigates world url :
  exists target, navigations (fst (acceptInvitation world url)) = [target]
                 /\ (target = url
                     \/ exists workspace,
                          target = "/?invitedWorkspace=" +:+ shown workspace).
Proof.
  run_page.
  destruct (acceptApi world _) as [|[[|] [[|name workspace message]|]]]; simpl;
    eauto 6.
Qed.

(** X18. After a successful sign-in the page navigates exactly once, and
    in no other case: for every redirect parameter and whatever the accept
    endpoint does, the number of [router.push] calls is 1 when the status
    is success and [updateSession()] resolves, and 0 otherwise. *)
Theorem one_navigation_on_success (world : World) (status : string)
    (redirectUrl : option string) :
  length (navigations (fst (onStatus world status redirectUrl)))
  = if String.eqb status "success" && sessionUpdates world then 1 else 0.
Proof.
  unfold onStatus.
  destruct (String.eqb_spec status "failed") as [->|_]; [reflexivity|].
  destruct (String.eqb_spec status "invalid_data") as [->|_]; [reflexivity|].
  destruct (String.eqb status "success"); [|reflexivity].
  unfold perform, mbind, Act_bind, mret, Act_ret. simpl.
  destruct (sessionUpdates world); [|reflexivity].
  unfold afterSessionUpdate.
  destruct redirectUrl as [url|]; [|reflexivity].
  destruct (String.prefix "/invite/" url).
  - destruct (acceptInvitation_navigates world url) as (target & Hnav & _).
    destruct (acceptInvitation world url) as [t v]. simpl in *.
    now rewrite Hnav.
  - destruct (truthy (Some url)); reflexivity.
Qed.

(** X19. Where a successful sign-in goes when the redirect is no
    invitation: to the home page when the redirect parameter is missing or
    empty, and otherwise to the redirect parameter as it is; no request is
    made on the way. *)
Theorem plain_redirect (world : World) (redirectUrl : option string) :
  sessionUpdates world = true ->
  match redirectUrl with
  | Some url => String.prefix "/invite/" url = false
  | None => True
  end ->
  navigations (fst (onStatus world "success" redirectUrl))
  = [if truthy redirectUrl then default "/"%string redirectUrl else "/"%string]
  /\ posts (fst (onStatus world "success" redirectUrl)) = []
  /\ toasts (fst (onStatus world "success" redirectUrl)) = [].
Proof.
  intros Hsession Hplain. unfold onStatus. simpl.
  unfold perform, mbind, Act_bind, mret, Act_ret. simpl. rewrite Hsession.
  unfold afterSessionUpdate. destruct redirectUrl as [url|]; [|repeat split].
  rewrite Hplain. destruct (truthy (Some url)); repeat split.
Qed.

Lemma plain_redirect_witness :
  navigations (fst (onStatus (mkWorld true (fun _ => AcceptRejects)) "success"
                      (Some "/chat/42"%string)))
  = ["/chat/42"%string]
  /\ navigations (fst (onStatus (mkWorld true (fun _ => AcceptRejects)) "success"
                         (Some ""%string)))
     = ["/"%string].
Proof.
  split.
  - apply (plain_redirect (mkWorld true (fun _ => AcceptRejects))
             (Some "/chat/42"%string)); reflexivity.
  - apply (plain_redirect (mkWorld true (fun _ => AcceptRejects))
             (Some ""%string)); reflexivity.
Defined.

(** X20. An invitation redirect: the token is what follows /invite/, and
    one POST goes to /api/invitations/<token>/accept. When the endpoint
    answers with a success and an object, the page shows one success toast
    and goes to /?invitedWorkspace=<workspaceId>. In every other case
    (transport failure, a status that is not a success, a body that does
    not parse or is [null]) it shows exactly one error toast and goes back
    to the invitation. *)
Theorem invitation_redirect (world : World) (token : string) :
  sessionUpdates world = true ->
  let url := "/invite/" +:+ token in
  let endpoint := "/api/invitations/" +:+ token +:+ "/accept" in
  let effects := fst (onStatus world "success" (Some url)) in
  posts effects = [endpoint]
  /\ (forall name workspace message,
         acceptApi world endpoint
         = AcceptResponds (mkAccept true (Some (AcceptObject name workspace message))) ->
         navigations effects = ["/?invitedWorkspace=" +:+ shown workspace]
         /\ toasts effects
            = [("success", "Successfully joined " +:+ shown name +:+ "!")]%string)
  /\ ((forall name workspace message,
          acceptApi world endpoint
          <> AcceptResponds (mkAccept true (Some (AcceptObject name workspace message)))) ->
      navigations effects = [url]
      /\ exists description, toasts effects = [("error"%string, description)]).
Proof.
  intros Hsession url endpoint effects. subst effects url endpoint.
  unfold onStatus. simpl. rewrite Hsession. unfold afterSessionUpdate.
  change (String.prefix "" ("" +:+ token))
    with (String.prefix "/invite/" ("/invite/" +:+ token)).
  rewrite prefix_append. unfold acceptInvitation.
  rewrite replaceFirst_prefix. run_page.
  destruct (acceptApi world ("/api/invitations/" +:+ token +:+ "/accept"))
    as [|[[|] [[|name workspace message]|]]]; simpl.
  all: split; [reflexivity|].
  all: split;
    [ intros name' workspace' message' Heq; inversion Heq; subst; split; reflexivity
    | intros Hnot;
      first [ exfalso; eapply Hnot; reflexivity
            | split; [reflexivity | eexists; reflexivity] ] ].
Qed.

Lemma invitation_redirect_witness :
  let world := mkWorld true (fun _ => AcceptResponds
                  (mkAccept true (Some (AcceptObject (Some "Acme") (Some "w7") None))))%string in
  navigations (fst (onStatus world "success" (Some "/invite/abc"%string)))
  = ["/?invitedWorkspace=w7"%string]
  /\ posts (fst (onStatus world "success" (Some "/invite/abc"%string)))
     = ["/api/invitations/abc/accept"%string].
Proof.
  intros world.
  destruct (invitation_redirect world "abc" eq_refl) as (Hposts & Haccepted & _).
  destruct (Haccepted (Some "Acme") (Some "w7") None eq_refl)%string as [Hnav _].
  split; [exact Hnav | exact Hposts].
Defined.

(** X21. Statuses other than success stay on the page: the session is not
    refreshed, nothing is posted and nothing is navigated; the failed and
    invalid_data statuses show one error toast each, every other status
    shows nothing. *)
Theorem other_statuses_stay (world : World) (status : string)
    (redirectUrl : option string) :
  status <> "success"%string ->
  let effects := fst (onStatus world status redirectUrl) in
  ~ In UpdateSession effects
  /\ posts effects = []
  /\ navigations effects = []
  /\ toasts effects
     = if String.eqb status "failed" then [("error", "Invalid credentials!")]%string
       else if String.eqb status "invalid_data"
            then [("error", "Failed validating your submission!")]%string
            else [].
Proof.
  intros Hstatus effects. subst effects. unfold onStatus.
  destruct (String.eqb status "failed");
    [simpl; repeat split; intros [H|[]]; discriminate|].
  destruct (String.eqb status "invalid_data");
    [simpl; repeat split; intros [H|[]]; discriminate|].
  destruct (String.eqb_spec status "success"); [contradiction|].
  simpl. repeat split. intros [].
Qed.

Lemma other_statuses_stay_witness :
  toasts (fst (onStatus (mkWorld true (fun _ => AcceptRejects)) "failed"
                 (Some "/invite/abc"%string)))
  = [("error", "Invalid credentials!")]%string.
Proof.
  apply (other_statuses_stay (mkWorld true (fun _ => AcceptRejects)) "failed"
           (Some "/invite/abc"%string)).
  discriminate.
Defined.

End LoginFacts.

(** * Facts about the open flag of the dialog *)

Module ShellFacts.
Import MemoryGraph DialogTerms DialogShell DialogFacts.
Local Open Scope Z_scope.

Lemma last_cons {A} (a d : A) l : List.last (a :: l) d = List.last l a.
Proof.
  revert a d. induction l as [|b l IH]; intros a d; [reflexivity|].
  change (List.last (a :: b :: l) d) with (List.last (b :: l) d).
  rewrite !IH. reflexivity.
Qed.

Lemma handleAll_internal props calls internalOpen s :
  fst (handleAll props calls internalOpen s)
  = if controlledOnOpenChange props then internalOpen
    else List.last (map snd calls) internalOpen.
Proof.
  revert internalOpen s. induction calls as [|[net newOpen] calls IH];
    intros internalOpen s; simpl.
  - destruct (controlledOnOpenChange props); reflexivity.
  - rewrite IH. unfold onOpenChange.
    destruct (controlledOnOpenChange props); [reflexivity|].
    cbn [fst snd map].
    rewrite <- (last_cons newOpen internalOpen (map snd calls)). reflexivity.
Qed.

(** X22. Who owns the open flag. With an [open] prop the dialog shows that
    prop whatever [handleOpenChange] is called with. Without it and without
    an [onOpenChange] prop the dialog shows the value of the last call.
    Without it but with an [onOpenChange] prop every call is passed to the
    caller and the flag of the dialog never moves: the dialog stays as it
    was, closed if it started closed. *)
Theorem open_flag_owner (props : Props) (calls : list (Network * bool))
    (internalOpen : bool) (s : State) :
  let internalOpen' := fst (handleAll props calls internalOpen s) in
  (forall b, controlledOpen props = Some b -> openOf props internalOpen' = b)
  /\ (controlledOpen props = None -> controlledOnOpenChange props = false ->
      openOf props internalOpen' = List.last (map snd calls) internalOpen)
  /\ (controlledOpen props = None -> controlledOnOpenChange props = true ->
      openOf props internalOpen' = internalOpen
      /\ forall net newOpen,
           snd (fst (handleOpenChange net props newOpen internalOpen s))
           = [OnOpenChange newOpen]).
Proof.
  intros internalOpen'. subst internalOpen'. rewrite handleAll_internal.
  unfold openOf. split; [|split].
  - intros b ->. reflexivity.
  - intros -> ->. reflexivity.
  - intros -> Hcallback. rewrite Hcallback. split; [reflexivity|].
    intros net newOpen. unfold handleOpenChange, onOpenChange. simpl.
    rewrite Hcallback. reflexivity.
Qed.

Lemma open_flag_owner_witness :
  openOf (mkProps None true)
    (fst (handleAll (mkProps None true) [(offline, true); (offline, true)]
            false initialState))
  = false.
Proof.
  apply (open_flag_owner (mkProps None true) [(offline, true); (offline, true)]
           false initialState); reflexivity.
Defined.

End ShellFacts.
